(** * setup-opentap: a shallow embedding of [src/index.js]

    The action is one sequential script.  Its pure parts (the two settings
    generators, the download arguments, the version pattern, the package-spec
    parser) are embedded as functions on strings; its effects (downloads,
    subprocesses, file writes, the job status) are embedded in a small
    trace-and-completion monad whose answers come from a [World].

    The file has three parts: the script, the vocabulary of the properties,
    and the properties, among them the theorems C1 to C10 on the claims of
    the specification. *)

From Stdlib Require Import String Ascii List Bool NArith Arith Lia.
Import ListNotations.
Open Scope list_scope.
Open Scope string_scope.

(** ** JavaScript strings

    A string is a sequence of code units.  The script inspects only ASCII
    characters (comma, colon, dot, digits, the prefix http), so every function
    below gives the same cuts on the UTF-16 units of the engine and on the
    bytes of Rocq's [string]. *)
Module Js.

Definition dq : string := String "034"%char "".
Definition nl : string := String "010"%char "".
Definition bs : string := String "092"%char "".

(** [!!s] for a string [s]. *)
Definition truthy (s : string) : bool :=
  match s with
  | EmptyString => false
  | String _ _ => true
  end.

(** [!!v] for a value that is a string or [undefined]. *)
Definition truthy_opt (v : option string) : bool :=
  match v with
  | Some s => truthy s
  | None => false
  end.

(** [`${v}`] for a value that is a string or [undefined]. *)
Definition template (v : option string) : string :=
  match v with
  | Some s => s
  | None => "undefined"
  end.

(** [s.startsWith(p)] *)
Definition startsWith (s p : string) : bool := String.prefix p s.

(** [a.join(sep)] on an array of strings. *)
Fixpoint join (sep : string) (a : list string) : string :=
  match a with
  | [] => ""
  | [x] => x
  | x :: rest => x ++ sep ++ join sep rest
  end.

(** [s.split(sep)] for a separator of one character: the pieces between the
    separators, so never the empty array. *)
Fixpoint split (sep : ascii) (s : string) : list string :=
  match s with
  | EmptyString => [""]
  | String c s' =>
      if Ascii.eqb c sep then "" :: split sep s'
      else match split sep s' with
           | piece :: pieces => String c piece :: pieces
           | [] => [String c ""]
           end
  end.

(** [a.push(x)], as the array after the call. *)
Definition push {A : Type} (a : list A) (x : A) : list A := (a ++ [x])%list.

(** [a[i]]: [undefined] out of range. *)
Definition index {A : Type} (a : list A) (i : nat) : option A := nth_error a i.

Definition is_digit (c : ascii) : bool :=
  let n := nat_of_ascii c in (48 <=? n)%nat && (n <=? 57)%nat.

(** The value of a run of decimal digits, most significant first. *)
Fixpoint decimal_from (acc : N) (s : string) : N :=
  match s with
  | EmptyString => acc
  | String c s' => decimal_from (10 * acc + (N_of_ascii c - 48))%N s'
  end.

Fixpoint all_digits (s : string) : bool :=
  match s with
  | EmptyString => true
  | String c s' => is_digit c && all_digits s'
  end.

(** A JavaScript number as far as the script needs one: [None] is [NaN].
    [Number(v)] is applied to capture groups of [\d+] only, where it is the
    decimal value.  The script compares the result with 21 and 1; rounding to
    a double is monotone and keeps 1 and 21, so the comparisons agree with the
    ones on the exact value. *)
Definition Number (v : option string) : option N :=
  match v with
  | Some s => if all_digits s then Some (decimal_from 0 s) else None
  | None => None
  end.

Definition num_lt (a : option N) (b : N) : bool :=
  match a with
  | Some x => (x <? b)%N
  | None => false
  end.

Definition num_eq (a : option N) (b : N) : bool :=
  match a with
  | Some x => (x =? b)%N
  | None => false
  end.

End Js.

(** ** Regular expressions

    The fragment of ECMAScript patterns that [majorMinorPattern] uses, with
    the backtracking semantics of the standard: a matcher takes a continuation
    and a greedy quantifier tries the longer match first. *)
Module Regex.

Inductive regex : Type :=
| Rbegin                                      (* ^ *)
| Rchar (c : ascii)                           (* an escaped literal *)
| Rseq (r1 r2 : regex)
| Ropt (r : regex)                            (* r? *)
| Rstar (p : ascii -> bool)                   (* c*  for a class c *)
| Rplus (p : ascii -> bool)                   (* c+  for a class c *)
| Rgroup (name : option string) (r : regex).  (* (r) and (?<name>r) *)

(** The named groups that took part in the match, latest first. *)
Definition groups := list (string * string).

Definition Cont := nat -> string -> groups -> option groups.

Definition record (name : option string) (text : string) (g : groups) : groups :=
  match name with
  | Some n => (n, text) :: g
  | None => g
  end.

(** [match.groups[name]] *)
Fixpoint group (g : groups) (name : string) : option string :=
  match g with
  | [] => None
  | (n, text) :: g' => if String.eqb n name then Some text else group g' name
  end.

Fixpoint star (p : ascii -> bool) (k : Cont) (pos : nat) (s : string) (g : groups)
  {struct s} : option groups :=
  match s with
  | String c s' =>
      if p c then
        match star p k (S pos) s' g with
        | Some r => Some r
        | None => k pos s g
        end
      else k pos s g
  | EmptyString => k pos s g
  end.

Fixpoint rmatch (r : regex) (k : Cont) (pos : nat) (s : string) (g : groups)
  {struct r} : option groups :=
  match r with
  | Rbegin => if (pos =? 0)%nat then k pos s g else None
  | Rchar c =>
      match s with
      | String c' s' => if Ascii.eqb c' c then k (S pos) s' g else None
      | EmptyString => None
      end
  | Rseq r1 r2 => rmatch r1 (fun pos' s' g' => rmatch r2 k pos' s' g') pos s g
  | Ropt r1 =>
      match rmatch r1 k pos s g with
      | Some res => Some res
      | None => k pos s g
      end
  | Rstar p => star p k pos s g
  | Rplus p =>
      match s with
      | String c' s' => if p c' then star p k (S pos) s' g else None
      | EmptyString => None
      end
  | Rgroup name r1 =>
      rmatch r1
        (fun pos' s' g' => k pos' s' (record name (substring 0 (pos' - pos) s) g'))
        pos s g
  end.

(** [pattern.exec(s)] without the g and y flags: the first index from which
    the pattern matches; [None] is [null]. *)
Fixpoint exec_from (r : regex) (pos : nat) (s : string) : option groups :=
  match rmatch r (fun _ _ g => Some g) pos s [] with
  | Some g => Some g
  | None =>
      match s with
      | String _ s' => exec_from r (S pos) s'
      | EmptyString => None
      end
  end.

Definition exec (r : regex) (s : string) : option groups := exec_from r 0 s.

(** The class [.]: every unit but a line terminator.  The line and
    paragraph separators U+2028 and U+2029, which no byte is, are left out;
    the pattern uses the class only in its final [.*], which accepts after
    any number of units, so they change nothing here. *)
Definition dot (c : ascii) : bool :=
  negb (Ascii.eqb c "010"%char || Ascii.eqb c "013"%char).

End Regex.

Import Js.

(** ** The data of a run *)

(** A repository descriptor, [{ url, domain, token }]; a token is a string or
    [undefined]. *)
Record Repository : Type := mkRepository {
  url : string;
  domain : string;
  token : option string
}.

(** An entry of [image.Packages], [{ Name, Version }]: both come from indexing
    an array, so both are a string or [undefined]. *)
Record Package : Type := mkPackage {
  Name : option string;
  Version : option string
}.

Record Image : Type := mkImage {
  Packages : list Package;
  Repositories : list string
}.

(** [INSTALL_DIRS], an object used as a table from platform tags. *)
Definition INSTALL_DIRS : list (string * string) :=
  [ ("linux", "/opt/tap");
    ("windows", "C:/Program Files/OpenTAP");
    ("macos", "/Users/runner/Library/OpenTAP") ].

(** [table[key]]: [undefined] for a key the object does not have. *)
Fixpoint property (table : list (string * string)) (key : string) : option string :=
  match table with
  | [] => None
  | (k, v) :: rest => if String.eqb k key then Some v else property rest key
  end.

(** ** The settings documents *)

Definition authentication_open : string :=
  "<?xml version=" ++ dq ++ "1.0" ++ dq ++ " encoding=" ++ dq ++ "utf-8" ++ dq ++ "?>" ++ nl ++
  "<AuthenticationSettings type=" ++ dq ++
    "OpenTap.Authentication.AuthenticationSettings" ++ dq ++ ">" ++ nl ++
  "  <Tokens type=" ++ dq ++
    "System.Collections.Generic.List`1[[OpenTap.Authentication.TokenInfo]]" ++ dq ++ ">".

Definition authentication_close : string :=
  "  </Tokens>" ++ nl ++
  "</AuthenticationSettings>".

Definition GetAuthenticationSettings (repositories : list Repository) : string :=
  let xml := authentication_open in
  let xml :=
    fold_left
      (fun xml repo =>
         if truthy_opt (token repo) then
           xml ++ (nl ++
             "    <TokenInfo>" ++ nl ++
             "      <AccessToken>" ++ template (token repo) ++ "</AccessToken>" ++ nl ++
             "      <Domain>" ++ domain repo ++ "</Domain>" ++ nl ++
             "    </TokenInfo>" ++ nl)
         else xml)
      repositories xml in
  xml ++ authentication_close.

Definition package_manager_open : string :=
  "<?xml version=" ++ dq ++ "1.0" ++ dq ++ " encoding=" ++ dq ++ "utf-8" ++ dq ++ "?>" ++ nl ++
  "<PackageManagerSettings type=" ++ dq ++
    "OpenTap.Package.PackageManagerSettings" ++ dq ++ ">" ++ nl ++
  "  <UseLocalPackageCache>true</UseLocalPackageCache>" ++ nl ++
  "  <ShowIncompatiblePackages>false</ShowIncompatiblePackages>" ++ nl ++
  "  <CheckForUpdates>false</CheckForUpdates>" ++ nl ++
  "  <Repositories>" ++ nl.

Definition GetPackageManagerSettings (repositories : list Repository) : string :=
  let xml := package_manager_open in
  let xml :=
    fold_left
      (fun xml repo =>
         xml ++ ("    <RepositorySettingEntry>" ++ nl ++
                 "      <Url>" ++ url repo ++ "</Url>" ++ nl ++
                 "      <IsEnabled>true</IsEnabled>" ++ nl ++
                 "    </RepositorySettingEntry>" ++ nl))
      repositories xml in
  xml ++ ("  </Repositories>" ++ nl ++
          "</PackageManagerSettings>").

(** ** The pure steps of [main] *)

(** The [switch] on [os.platform()]. *)
Definition resolve_platform (platformString : string) : string :=
  if String.eqb platformString "darwin" then "macos"
  else if String.eqb platformString "win32" then "windows"
  else "linux".

(** The version pattern,
    [/^(?<major>\d+)\.(?<minor>\d+)(\.(?<patch>\d+))?.*/]. *)
Definition majorMinorPattern : Regex.regex :=
  let digits := Regex.Rplus is_digit in
  Regex.Rseq Regex.Rbegin
   (Regex.Rseq (Regex.Rgroup (Some "major") digits)
    (Regex.Rseq (Regex.Rchar ".")
     (Regex.Rseq (Regex.Rgroup (Some "minor") digits)
      (Regex.Rseq
         (Regex.Ropt
            (Regex.Rgroup None
               (Regex.Rseq (Regex.Rchar ".") (Regex.Rgroup (Some "patch") digits))))
         (Regex.Rstar Regex.dot))))).

(** The test of the version gate on a successful match,
    [minor < 21 || (minor == 21 && !!patch && Number(patch) < 1)]. *)
Definition too_old (g : Regex.groups) : bool :=
  let minor := Number (Regex.group g "minor") in
  let patch := Regex.group g "patch" in
  num_lt minor 21 || (num_eq minor 21 && truthy_opt patch && num_lt (Number patch) 1).

(** The additional repository once the scheme test has run. *)
Definition resolve_repository (additionalRepository : string) : string :=
  if negb (startsWith additionalRepository "http")
  then "https://" ++ additionalRepository
  else additionalRepository.

(** The loop over [pkgSpecs], pushing one entry per spec. *)
Definition parse_packages (packages : string) : list Package :=
  let pkgSpecs := split "," packages in
  fold_left
    (fun Packages spec =>
       let name := index (split ":" spec) 0 in
       let ver := index (split ":" spec) 1 in
       push Packages (mkPackage name ver))
    pkgSpecs [].

(** [JSON.stringify(image, null, 2)] for an image: two spaces a level, a
    property whose value is [undefined] left out, the empty array and the
    empty object on one line. *)
Definition hex_digit (n : nat) : string :=
  String (ascii_of_nat (if (n <? 10)%nat then 48 + n else 87 + n)) "".

Definition quote_unit (c : ascii) : string :=
  let n := nat_of_ascii c in
  if (n =? 34)%nat then bs ++ dq
  else if (n =? 92)%nat then bs ++ bs
  else if (n =? 8)%nat then bs ++ "b"
  else if (n =? 9)%nat then bs ++ "t"
  else if (n =? 10)%nat then bs ++ "n"
  else if (n =? 12)%nat then bs ++ "f"
  else if (n =? 13)%nat then bs ++ "r"
  else if (n <? 32)%nat then bs ++ "u00" ++ hex_digit (n / 16) ++ hex_digit (n mod 16)
  else String c "".

Fixpoint quote_units (s : string) : string :=
  match s with
  | EmptyString => ""
  | String c s' => quote_unit c ++ quote_units s'
  end.

Definition json_string (s : string) : string := dq ++ quote_units s ++ dq.

Definition json_block (opening closing indent : string) (items : list string) : string :=
  match items with
  | [] => opening ++ closing
  | _ =>
      opening ++ nl ++
      join ("," ++ nl) (map (fun item => indent ++ "  " ++ item) items) ++ nl ++
      indent ++ closing
  end.

Definition json_member (key : string) (value : option string) : list string :=
  match value with
  | Some v => [json_string key ++ ": " ++ v]
  | None => []
  end.

Definition json_package (indent : string) (p : Package) : string :=
  json_block "{" "}" indent
    (json_member "Name" (option_map json_string (Name p)) ++
     json_member "Version" (option_map json_string (Version p)))%list.

Definition JSON_stringify (image : Image) : string :=
  json_block "{" "}" ""
    [ json_string "Packages" ++ ": " ++
        json_block "[" "]" "  " (map (json_package "    ") (Packages image));
      json_string "Repositories" ++ ": " ++
        json_block "[" "]" "  " (map json_string (Repositories image)) ].

(** ** Effects

    What a call did is an [Event]; the run is the sequence of its events.  What
    a call answered comes from the [World]: the inputs of the job, the host,
    and for each call that can fail either its value or the message of the
    error it throws.  Logging and the job status never fail. *)

Inductive Result (A : Type) : Type :=
| Ok (a : A)
| Err (message : string).
Arguments Ok {A} a.
Arguments Err {A} message.

Record World : Type := mkWorld {
  os_platform : string;                                  (* os.platform() *)
  os_arch : string;                                      (* os.arch() *)
  getInput : string -> string;                           (* core.getInput(name) *)
  tc_downloadTool : string -> Result string;             (* the path of the download *)
  tc_extractZip : string -> string -> Result unit;
  exec_exec : string -> list string -> Result unit;
  fs_existsSync : string -> bool;
  fs_mkdirSync : string -> Result unit;
  fs_writeFileSync : string -> string -> Result unit;
  core_addPath : string -> Result unit;
  URL_host : string -> Result string;                    (* new URL(u).host *)
  null_groups_message : string      (* the TypeError of reading [groups] of null *)
}.

Inductive Event : Type :=
| Einfo (message : string)
| Edebug (message : string)
| EsetFailed (message : string)
| EaddPath (dir : string)
| EdownloadTool (address : string)
| EextractZip (file dest : string)
| Eexec (command : string) (arguments : list string)
| EmkdirSync (dir : string)
| EwriteFileSync (file data : string).

(** How a piece of the body of a function ends: it goes on with a value, it
    executes [return;], or it throws. *)
Inductive Completion (A : Type) : Type :=
| Normal (a : A)
| Return_
| Throw (message : string).
Arguments Normal {A} a.
Arguments Return_ {A}.
Arguments Throw {A} message.

Definition M (A : Type) : Type := (list Event * Completion A)%type.

Definition ret {A : Type} (a : A) : M A := ([], Normal a).

Definition bind {A B : Type} (m : M A) (k : A -> M B) : M B :=
  match m with
  | (t, Normal a) => let (t', c) := k a in ((t ++ t')%list, c)
  | (t, Return_) => (t, Return_)
  | (t, Throw message) => (t, Throw message)
  end.

Notation "x <- m ;; k" := (bind m (fun x => k))
  (at level 61, m at next level, right associativity).
Notation "m ;; k" := (bind m (fun _ => k))
  (at level 61, right associativity).

Definition emit (e : Event) : M unit := ([e], Normal tt).

Definition return_ {A : Type} : M A := ([], Return_).

(** A call that leaves [e] in the trace and answers [r]. *)
Definition call {A : Type} (e : Event) (r : Result A) : M A :=
  ([e], match r with Ok a => Normal a | Err message => Throw message end).

(** An expression that may throw and leaves nothing in the trace. *)
Definition eval {A : Type} (r : Result A) : M A :=
  ([], match r with Ok a => Normal a | Err message => Throw message end).

(** [try { m } catch (error) { handler(error.message) }] *)
Definition try_catch {A : Type} (m : M A) (handler : string -> M A) : M A :=
  match m with
  | (t, Throw message) => let (t', c) := handler message in ((t ++ t')%list, c)
  | done => done
  end.

(** [try { m; return true; } catch { }] seen from after it: [true] when the
    function returned from inside, [false] when control falls out. *)
Definition returned_true {A : Type} (m : M A) : M bool :=
  match m with
  | (t, Normal _) => (t, Normal true)
  | (t, Return_) => (t, Return_)
  | (t, Throw _) => (t, Normal false)
  end.

Section Run.

Variable w : World.

Definition info (message : string) : M unit := emit (Einfo message).
Definition debug (message : string) : M unit := emit (Edebug message).
Definition setFailed (message : string) : M unit := emit (EsetFailed message).
Definition addPath (dir : string) : M unit := call (EaddPath dir) (core_addPath w dir).
Definition downloadTool (address : string) : M string :=
  call (EdownloadTool address) (tc_downloadTool w address).
Definition exec (command : string) (arguments : list string) : M unit :=
  call (Eexec command arguments) (exec_exec w command arguments).
Definition mkdirSync (dir : string) : M unit := call (EmkdirSync dir) (fs_mkdirSync w dir).
Definition writeFileSync (file data : string) : M unit :=
  call (EwriteFileSync file data) (fs_writeFileSync w file data).
Definition new_URL_host (u : string) : M string := eval (URL_host w u).

Definition expand_archive (file dest : string) : list string :=
  [ "-c";
    "Expand-Archive -Path " ++ dq ++ file ++ dq ++ " -DestinationPath " ++ dq ++ dest ++ dq ].

Definition extractZip (file dest : string) : M bool :=
  first <- returned_true (call (EextractZip file dest) (tc_extractZip w file dest)) ;;
  if first then ret true
  else
    second <- returned_true (exec "pwsh" (expand_archive file dest)) ;;
    if second then ret true
    else ret false.

(** *** [main], lines 80 to 104: platform and download arguments *)

Definition platform : string := resolve_platform (os_platform w).

Definition version : string := getInput w "version".
Definition hasVersion : bool := truthy version.

Definition args : list string :=
  let args := [] in
  let args := if hasVersion then push args ("version=" ++ getInput w "version") else args in
  let args :=
    if truthy (getInput w "architecture")
    then push args ("architecture=" ++ getInput w "architecture")
    else push args ("architecture=" ++
                    (if String.eqb (os_arch w) "x32" then "x86" else "x64")) in
  if truthy (getInput w "os")
  then push args ("os=" ++ getInput w "os")
  else push args ("os=" ++ platform).

Definition download_address : string :=
  "https://packages.opentap.io/3.0/DownloadPackage/OpenTAP?" ++ join "&" args.

(** [INSTALL_DIRS[platform]]; the table has every value of [platform], so the
    string conversion of [undefined] never shows. *)
Definition destDir : string := template (property INSTALL_DIRS platform).
Definition settingsDir : string := destDir ++ "/Settings/".

(** *** [main], lines 106 to 134: download, extraction, configuration *)

Definition download : M string :=
  info ("Downloading OpenTAP: " ++ join "," args) ;;
  downloadTool download_address.

Definition extraction_failed : string := "Unable to extract zip archive.".

Definition extract (downloadedFilepath : string) : M unit :=
  info ("Unzipping OpenTAP: " ++ downloadedFilepath) ;;
  extracted <- extractZip downloadedFilepath destDir ;;
  if negb extracted then
    setFailed extraction_failed ;;
    return_
  else ret tt.

Definition configure : M unit :=
  (if negb (fs_existsSync w settingsDir) then mkdirSync settingsDir else ret tt) ;;
  info "Configuring OpenTAP" ;;
  (if negb (String.eqb platform "windows")
   then exec "chmod" ["+x"; destDir ++ "/tap"]
   else ret tt) ;;
  addPath destDir.

(** *** [main], lines 138 to 160: the repositories *)

Definition default_repository : string := "https://packages.opentap.io".

Definition package_manager_file : string := settingsDir ++ "Package Manager.xml".

Definition collect_repositories : M (list Repository) :=
  host <- new_URL_host default_repository ;;
  let repositories :=
    [ mkRepository default_repository host (Some (getInput w "token")) ] in
  let additionalRepository := getInput w "additional-repository" in
  if truthy additionalRepository then
    let additionalRepository := resolve_repository additionalRepository in
    host <- new_URL_host additionalRepository ;;
    let repositories :=
      push repositories
        (mkRepository additionalRepository host
           (Some (getInput w "additional-repository-token"))) in
    let pmSettings := GetPackageManagerSettings repositories in
    let destFile := package_manager_file in
    writeFileSync destFile pmSettings ;;
    debug ("Wrote package manager settings to " ++ destFile) ;;
    ret repositories
  else ret repositories.

(** *** [main], lines 162 to 176: the version gate *)

Definition has_token (r : Repository) : bool := truthy_opt (token r).

Definition version_too_old : string :=
  "repository-token support requires OpenTAP 9.22.0 or greater.".

(** [exec] answers [null] on a version the pattern does not match, and reading
    [match.groups] then throws a TypeError. *)
Definition version_gate (hasToken : bool) : M unit :=
  if hasVersion && hasToken then
    match_ <- eval (match Regex.exec majorMinorPattern version with
                    | Some g => Ok g
                    | None => Err (null_groups_message w)
                    end) ;;
    if too_old match_ then
      setFailed version_too_old ;;
      return_
    else ret tt
  else ret tt.

(** *** [main], lines 178 to 208: authentication settings and the image *)

Definition authentication_file : string := settingsDir ++ "AuthenticationSettings.xml".

Definition write_authentication (hasToken : bool) (repositories : list Repository) : M unit :=
  if hasToken then
    let authenticationSettings := GetAuthenticationSettings repositories in
    let destFile := authentication_file in
    writeFileSync destFile authenticationSettings ;;
    debug ("Wrote authentication settings to " ++ destFile)
  else ret tt.

Definition image_install : list string :=
  ["image"; "install"; "image.json"; "--non-interactive"; "--merge"].

Definition install_image (repositories : list Repository) : M unit :=
  let image := mkImage (parse_packages (getInput w "packages")) (map url repositories) in
  let imageJson := JSON_stringify image in
  writeFileSync "image.json" imageJson ;;
  debug ("Image: " ++ imageJson) ;;
  exec "tap" image_install.

Definition after_repositories (repositories : list Repository) : M unit :=
  let hasToken := existsb has_token repositories in
  version_gate hasToken ;;
  write_authentication hasToken repositories ;;
  install_image repositories.

Definition install_packages : M unit :=
  repositories <- collect_repositories ;;
  after_repositories repositories.

(** *** [main] *)

Definition package_list : list string := ["package"; "list"; "--installed"].

Definition setup : M unit :=
  downloadedFilepath <- download ;;
  extract downloadedFilepath ;;
  configure.

Definition main_try : M unit :=
  setup ;;
  (if truthy (getInput w "packages") then install_packages else ret tt) ;;
  exec "tap" package_list.

Definition main : M unit :=
  try_catch main_try (fun message => setFailed message).

End Run.

(** * Vocabulary of the properties

    The notions the statements below are written with: the reading of a
    version the spec describes, what a trace contains, the documents and
    package lists as the spec words them, and sample worlds.  None of them is
    part of the script. *)

(** ** Reading a version *)

(** The longest run of characters of the class [p] at the start of [s], and
    what follows it. *)
Fixpoint span (p : ascii -> bool) (s : string) : string * string :=
  match s with
  | String c s' =>
      if p c then let (run, rest) := span p s' in (String c run, rest)
      else ("", s)
  | EmptyString => ("", "")
  end.

(** A version as the spec reads it, major.minor[.patch]: a non-empty run of
    digits, a dot, a non-empty run of digits, and a patch when a dot and a
    digit come next; whatever follows is ignored.  [None] when the version
    does not start that way. *)
Definition parse_version (v : string) : option (string * string * option string) :=
  let (major, rest) := span is_digit v in
  match major, rest with
  | String _ _, String "." rest =>
      let (minor, rest) := span is_digit rest in
      match minor with
      | String _ _ =>
          match rest with
          | String "." rest =>
              match fst (span is_digit rest) with
              | String _ _ as patch => Some (major, minor, Some patch)
              | EmptyString => Some (major, minor, None)
              end
          | _ => Some (major, minor, None)
          end
      | EmptyString => None
      end
  | _, _ => None
  end.

(** The named groups of a match that read [parsed]. *)
Definition groups_of (parsed : string * string * option string) : Regex.groups :=
  match parsed with
  | (major, minor, Some patch) => [("patch", patch); ("minor", minor); ("major", major)]
  | (major, minor, None) => [("minor", minor); ("major", major)]
  end.

(** The patch at the start of what follows the minor: there is one exactly
    when a dot and a digit come next. *)
Definition patch_of (rest : string) : option string :=
  match rest with
  | String "." rest' =>
      match fst (span is_digit rest') with
      | String _ _ as patch => Some patch
      | EmptyString => None
      end
  | _ => None
  end.

(** The end of the pattern, [(\.(?<patch>\d+))?.*]. *)
Definition pattern_end : Regex.regex :=
  Regex.Rseq
    (Regex.Ropt
       (Regex.Rgroup None
          (Regex.Rseq (Regex.Rchar ".")
             (Regex.Rgroup (Some "patch") (Regex.Rplus is_digit)))))
    (Regex.Rstar Regex.dot).

(** The continuation of a whole pattern: the match is found. *)
Definition accept : Regex.Cont := fun _ _ g => Some g.

(** What the gate tests, on the numbers read from the version. *)
Definition value (digits : string) : N := decimal_from 0 digits.

Definition rejects (minor : N) (patch : option N) : bool :=
  (minor <? 21)%N ||
  ((minor =? 21)%N && match patch with Some p => (p <? 1)%N | None => false end).

Definition gate_rejects (v : string) : bool :=
  match parse_version v with
  | Some (_, minor, patch) => rejects (value minor) (option_map value patch)
  | None => false
  end.

(** ** Traces and completions *)

(** [m] after the events [t]. *)
Definition prepend {A : Type} (t : list Event) (m : M A) : M A :=
  ((t ++ fst m)%list, snd m).

(** Where a piece of the body can execute [return;].
    [returns_after e m]: when [m] returns, the last thing it did is [e].
    [no_return m]: [m] never returns. *)
Definition ends_with (e : Event) (t : list Event) : Prop := exists t', t = (t' ++ [e])%list.

Definition returns_after {A : Type} (e : Event) (m : M A) : Prop :=
  forall t, m = (t, Return_) -> ends_with e t.

Definition no_return {A : Type} (m : M A) : Prop := forall t, m <> (t, Return_).

(** Every event of [m] satisfies [P]. *)
Definition trace_all {A : Type} (P : Event -> Prop) (m : M A) : Prop := Forall P (fst m).

(** A call that threw. *)
Definition failed {A : Type} (r : Result A) : bool :=
  match r with
  | Ok _ => false
  | Err _ => true
  end.

(** ** What a run wrote and ran *)

(** The trace [t] has a write of [file]. *)
Definition writes (file : string) (t : list Event) : Prop :=
  exists data, In (EwriteFileSync file data) t.

(** The trace [t] has the subprocess [command] with [arguments]. *)
Definition executes (command : string) (arguments : list string) (t : list Event) : Prop :=
  In (Eexec command arguments) t.

(** An event that is neither the write of the authentication settings nor a
    subprocess of the installed tool. *)
Definition before_installing (w : World) (e : Event) : Prop :=
  (forall data, e <> EwriteFileSync (authentication_file w) data) /\
  (forall arguments, e <> Eexec "tap" arguments).

(** [main] from the configuration step on. *)
Definition after_extraction (w : World) : M unit :=
  configure w ;;
  (if truthy (getInput w "packages") then install_packages w else ret tt) ;;
  exec w "tap" package_list.

(** An event that is not a PowerShell subprocess. *)
Definition not_powershell (e : Event) : Prop := forall arguments, e <> Eexec "pwsh" arguments.

(** An event that writes no file and does not install the image. *)
Definition no_write_no_install (e : Event) : Prop :=
  (forall file data, e <> EwriteFileSync file data) /\
  e <> Eexec "tap" ["image"; "install"; "image.json"; "--non-interactive"; "--merge"].

(** ** The authentication settings, as the spec words them *)

(** One [TokenInfo] entry, as the document spells it. *)
Definition TokenInfo (value host : string) : string :=
  nl ++ "    <TokenInfo>" ++ nl ++
  "      <AccessToken>" ++ value ++ "</AccessToken>" ++ nl ++
  "      <Domain>" ++ host ++ "</Domain>" ++ nl ++
  "    </TokenInfo>" ++ nl.

(** The entries the spec asks for: one per repository with a non-empty token,
    in the order of the repositories, with its token and its domain. *)
Fixpoint token_entries (repositories : list Repository) : list string :=
  match repositories with
  | [] => []
  | repo :: rest =>
      match token repo with
      | Some (String c value) => TokenInfo (String c value) (domain repo) :: token_entries rest
      | _ => token_entries rest
      end
  end.

(** The pieces one after the other. *)
Fixpoint glue (pieces : list string) : string :=
  match pieces with
  | [] => ""
  | piece :: rest => piece ++ glue rest
  end.

(** The authentication document with the given entries. *)
Definition authentication_document (entries : list string) : string :=
  authentication_open ++ glue entries ++ authentication_close.

(** ** The packages input, as the spec words it *)

(** The text of [s] before its first [c] (all of [s] when it has none). *)
Fixpoint before (c : ascii) (s : string) : string :=
  match s with
  | EmptyString => ""
  | String x s' => if Ascii.eqb x c then "" else String x (before c s')
  end.

(** The text of [s] after its first [c], when it has one. *)
Fixpoint after (c : ascii) (s : string) : option string :=
  match s with
  | EmptyString => None
  | String x s' => if Ascii.eqb x c then Some s' else after c s'
  end.

(** The package of one spec, as the script builds it. *)
Definition package_of_spec (spec : string) : Package :=
  mkPackage (Some (before ":" spec)) (option_map (before ":") (after ":" spec)).

(** The package of one spec, as the claim words it: the version is everything
    after the first colon. *)
Definition claimed_package_of_spec (spec : string) : Package :=
  mkPackage (Some (before ":" spec)) (after ":" spec).

(** A spec that starts with a name: it is not empty and its first character
    is not the colon. *)
Definition starts_with_name (spec : string) : bool :=
  match spec with
  | EmptyString => false
  | String c _ => negb (Ascii.eqb c ":")
  end.

(** ** Sample worlds

    A host on which every call succeeds unless said otherwise; used for the
    scenarios of the spec and the sample runs of the claims. *)

(** The inputs of a job: the given ones, and the empty string for an input
    that is absent. *)
Definition inputs (given : list (string * string)) (name : string) : string :=
  match property given name with
  | Some v => v
  | None => ""
  end.

(** The host of the plain URLs the samples use: what stands between the
    scheme and the first slash or colon. *)
Definition sample_host (u : string) : Result string :=
  let authority from := before ":" (before "/" (substring from (String.length u) u)) in
  if String.prefix "https://" u then Ok (authority 8)
  else if String.prefix "http://" u then Ok (authority 7)
  else Err "Invalid URL".

(** A host that downloads to /tmp/opentap.zip, has no settings directory yet,
    and runs every subprocess but PowerShell with success. *)
Definition sample_world (host_platform host_arch : string) (given : list (string * string))
  (unzip powershell : Result unit) : World :=
  {| os_platform := host_platform;
     os_arch := host_arch;
     getInput := inputs given;
     tc_downloadTool := fun _ => Ok "/tmp/opentap.zip";
     tc_extractZip := fun _ _ => unzip;
     exec_exec := fun command _ => if String.eqb command "pwsh" then powershell else Ok tt;
     fs_existsSync := fun _ => false;
     fs_mkdirSync := fun _ => Ok tt;
     fs_writeFileSync := fun _ _ => Ok tt;
     core_addPath := fun _ => Ok tt;
     URL_host := sample_host;
     null_groups_message := "Cannot read properties of null (reading 'groups')" |}.

(** ** The additional repository *)

Definition is_letter (c : ascii) : bool :=
  let n := nat_of_ascii c in
  ((65 <=? n)%nat && (n <=? 90)%nat) || ((97 <=? n)%nat && (n <=? 122)%nat).

(** The rest of a scheme and its end. *)
Fixpoint scheme_ends (s : string) : bool :=
  match s with
  | EmptyString => false
  | String c s' =>
      if Ascii.eqb c ":" then String.prefix "//" s'
      else if is_letter c || is_digit c || Ascii.eqb c "+" || Ascii.eqb c "-" || Ascii.eqb c "."
           then scheme_ends s'
           else false
  end.

(** An input with a scheme, in the sense of a URL: a letter, then letters,
    digits, plus, minus or dot, then a colon and two slashes. *)
Definition has_scheme (s : string) : bool :=
  match s with
  | EmptyString => false
  | String c s' => is_letter c && scheme_ends s'
  end.

(** ** Platform and download address *)

(** The operating system the download asks for. *)
Definition os_tag (w : World) : string :=
  if truthy (getInput w "os") then getInput w "os" else platform w.

(** The architecture the download asks for. *)
Definition architecture (w : World) : string :=
  if truthy (getInput w "architecture") then getInput w "architecture"
  else if String.eqb (os_arch w) "x32" then "x86" else "x64".

(** The version argument: there when a version is configured. *)
Definition version_argument (w : World) : list string :=
  if truthy (getInput w "version") then ["version=" ++ getInput w "version"] else [].

(** The fixed part of the download address. *)
Definition endpoint : string := "https://packages.opentap.io/3.0/DownloadPackage/OpenTAP?".

(** ** The sample runs *)

(** The world of the counterexample to C6: a Linux host asked for the Windows
    download. *)
Definition linux_asked_for_windows : World :=
  sample_world "linux" "x64" [("os", "windows")] (Ok tt) (Ok tt).

(** The end-to-end scenario of the spec: version 9.21.1, the package
    Demonstration and a token, on a Linux x64 host. *)
Definition scenario : World :=
  sample_world "linux" "x64"
    [("version", "9.21.1"); ("packages", "Demonstration"); ("token", "abc")] (Ok tt) (Ok tt).

(** A run that asks for version 9.21.0 with a token. *)
Definition old_version : World :=
  sample_world "linux" "x64"
    [("version", "9.21.0"); ("packages", "Demonstration"); ("token", "abc")] (Ok tt) (Ok tt).

(** A host with neither unzip nor PowerShell. *)
Definition no_extractor : World :=
  sample_world "linux" "x64" [("packages", "Demonstration")]
    (Err "Unable to locate executable file: unzip")
    (Err "Unable to locate executable file: pwsh").

(** A run without packages that has everything else configured. *)
Definition no_packages : World :=
  sample_world "win32" "x64"
    [("version", "9.20.0"); ("token", "abc"); ("additional-repository", "foo.com/repo");
     ("additional-repository-token", "def")] (Ok tt) (Ok tt).

(** A run whose additional repository has the ftp scheme. *)
Definition with_ftp_repository : World :=
  sample_world "linux" "x64"
    [("packages", "Demonstration"); ("additional-repository", "ftp://foo.com/repo")]
    (Ok tt) (Ok tt).

(** A run with the additional repository of the spec's example. *)
Definition with_additional_repository : World :=
  sample_world "linux" "x64"
    [("packages", "Demonstration"); ("additional-repository", "foo.com/repo")] (Ok tt) (Ok tt).

(** ** Versions again, package-manager settings, counting entries *)

(** [s] goes on with a digit. *)
Definition starts_with_digit (s : string) : bool :=
  match s with
  | String c _ => is_digit c
  | EmptyString => false
  end.

(** One repository entry of the package-manager settings. *)
Definition RepositorySettingEntry (address : string) : string :=
  "    <RepositorySettingEntry>" ++ nl ++
  "      <Url>" ++ address ++ "</Url>" ++ nl ++
  "      <IsEnabled>true</IsEnabled>" ++ nl ++
  "    </RepositorySettingEntry>" ++ nl.

(** The image of the scenario, as written to image.json. *)
Definition scenario_image : string :=
  JSON_stringify (mkImage [mkPackage (Some "Demonstration") None] [default_repository]).

(** [s] has no [c]. *)
Fixpoint free_of (c : ascii) (s : string) : bool :=
  match s with
  | EmptyString => true
  | String x s' => negb (Ascii.eqb x c) && free_of c s'
  end.

(** The number of places of [s] where [p] starts. *)
Fixpoint occurrences (p s : string) : nat :=
  match s with
  | EmptyString => 0
  | String _ s' => (if String.prefix p s then 1 else 0) + occurrences p s'
  end.

Definition opening_tag : string := "<TokenInfo>".

(** The fixed text of an entry around its token and its domain. *)
Definition entry_head : string :=
  nl ++ "    <TokenInfo>" ++ nl ++ "      <AccessToken>".
Definition entry_middle : string := "</AccessToken>" ++ nl ++ "      <Domain>".
Definition entry_tail : string := "</Domain>" ++ nl ++ "    </TokenInfo>" ++ nl.

(** ** Notions of the further properties *)

(** The fixed end of the package-manager settings. *)
Definition package_manager_close : string :=
  "  </Repositories>" ++ nl ++ "</PackageManagerSettings>".

Definition entry_tag : string := "<RepositorySettingEntry>".

(** The fixed text of a repository entry before and after its address. *)
Definition repository_head : string := "    <RepositorySettingEntry>" ++ nl ++ "      <Url>".
Definition repository_tail : string :=
  "</Url>" ++ nl ++ "      <IsEnabled>true</IsEnabled>" ++ nl ++
  "    </RepositorySettingEntry>" ++ nl.

(** A repository with its address only. *)
Definition address_only (repo : Repository) : Repository := mkRepository (url repo) "" None.

(** A token is configured for a repository the run uses: the token input, or
    the additional-repository token together with an additional repository. *)
Definition configured_token (w : World) : bool :=
  truthy (getInput w "token") ||
  (truthy (getInput w "additional-repository") &&
   truthy (getInput w "additional-repository-token")).

(** A trace without a failure report. *)
Definition quiet (t : list Event) : Prop := forall message, ~ In (EsetFailed message) t.

(** A piece of the body that reports a failure only to return right after. *)
Definition fail_stop {A : Type} (m : M A) : Prop :=
  match snd m with
  | Return_ => exists pre message, fst m = (pre ++ [EsetFailed message])%list /\ quiet pre
  | _ => quiet (fst m)
  end.

(** In the trace [t], every event of the kind [b] comes after an event of the
    kind [a]. *)
Definition guarded (a b : Event -> Prop) (t : list Event) : Prop :=
  forall pre e post, t = (pre ++ e :: post)%list -> b e -> exists e', In e' pre /\ a e'.

Definition is_image_write (e : Event) : Prop := exists data, e = EwriteFileSync "image.json" data.
Definition is_addPath (e : Event) : Prop := exists dir, e = EaddPath dir.

(** A host without network: the download fails. *)
Definition offline : World :=
  {| os_platform := "linux";
     os_arch := "x64";
     getInput := inputs [("packages", "Demonstration")];
     tc_downloadTool := fun _ => Err "Unexpected HTTP response: 503";
     tc_extractZip := fun _ _ => Ok tt;
     exec_exec := fun _ _ => Ok tt;
     fs_existsSync := fun _ => false;
     fs_mkdirSync := fun _ => Ok tt;
     fs_writeFileSync := fun _ _ => Ok tt;
     core_addPath := fun _ => Ok tt;
     URL_host := sample_host;
     null_groups_message := "Cannot read properties of null (reading 'groups')" |}.

(** A run whose additional repository is a bare host that starts with http. *)
Definition bare_http_host : World :=
  sample_world "linux" "x64"
    [("packages", "Demonstration"); ("additional-repository", "httpbin.org/repo")]
    (Ok tt) (Ok tt).

(** A run that asks for the version latest with a token. *)
Definition latest_version : World :=
  sample_world "linux" "x64"
    [("version", "latest"); ("packages", "Demonstration"); ("token", "abc")] (Ok tt) (Ok tt).

(** A run that asks for an old version with a token and an additional
    repository. *)
Definition old_version_two_repositories : World :=
  sample_world "linux" "x64"
    [("version", "9.20.0"); ("packages", "Demonstration"); ("token", "abc");
     ("additional-repository", "foo.com/repo")] (Ok tt) (Ok tt).

(** The descriptor of the default repository, given its host. *)
Definition default_descriptor (w : World) (host : string) : Repository :=
  mkRepository default_repository host (Some (getInput w "token")).

(** The descriptor of the additional repository, given its host. *)
Definition additional_descriptor (w : World) (host : string) : Repository :=
  mkRepository (resolve_repository (getInput w "additional-repository")) host
    (Some (getInput w "additional-repository-token")).


(** The subprocess that makes the tool executable. *)
Definition chmod_tap (w : World) : Event := Eexec "chmod" ["+x"; destDir w ++ "/tap"].

(** The trace of a piece of the body is guarded. *)
Definition guarded_trace (a b : Event -> Prop) {A : Type} (m : M A) : Prop :=
  guarded a b (fst m).



(** * Properties *)

(** ** Strings *)

Lemma append_nil_r (s : string) : s ++ "" = s.
Proof. induction s as [|c s IH]; simpl; [reflexivity | now rewrite IH]. Qed.

Lemma append_assoc (a b c : string) : (a ++ b) ++ c = a ++ (b ++ c).
Proof. induction a as [|x a IH]; simpl; [reflexivity | now rewrite IH]. Qed.

Lemma append_cancel_l (a b c : string) : a ++ b = a ++ c -> b = c.
Proof.
  induction a as [|x a IH]; simpl; intros H; [exact H | ].
  injection H as H. now apply IH.
Qed.

Lemma substring_prefix (a b : string) : substring 0 (String.length a) (a ++ b) = a.
Proof.
  induction a as [|x a IH]; simpl.
  - destruct b; reflexivity.
  - now rewrite IH.
Qed.

(** ** The version pattern

    [exec_majorMinorPattern] shows that the backtracking match of the pattern
    computes exactly [parse_version], the reading the spec describes. *)

Lemma span_append (p : ascii -> bool) (s : string) :
  s = fst (span p s) ++ snd (span p s).
Proof.
  induction s as [|c s IH]; simpl; [reflexivity | ].
  destruct (p c); [ | reflexivity].
  destruct (span p s) as [run rest]; simpl in *. now rewrite <- IH.
Qed.

Lemma span_digits (s : string) : all_digits (fst (span is_digit s)) = true.
Proof.
  induction s as [|c s IH]; simpl; [reflexivity | ].
  destruct (is_digit c) eqn:E; [ | reflexivity].
  destruct (span is_digit s); simpl in *. now rewrite E.
Qed.

Lemma substring_span (p : ascii -> bool) (s : string) :
  substring 0 (String.length (fst (span p s))) s = fst (span p s).
Proof. rewrite (span_append p s) at 2. apply substring_prefix. Qed.

(** A greedy quantifier whose continuation accepts the longest run stops there. *)
Lemma star_longest (p : ascii -> bool) (k : Regex.Cont) (g r : Regex.groups) :
  forall s pos,
    k (pos + String.length (fst (span p s)))%nat (snd (span p s)) g = Some r ->
    Regex.star p k pos s g = Some r.
Proof.
  induction s as [|c s IH]; intros pos; simpl.
  - rewrite Nat.add_0_r. trivial.
  - destruct (p c); simpl.
    + destruct (span p s) as [run rest] eqn:E; simpl in *.
      rewrite Nat.add_succ_r. intros H.
      now rewrite (IH (S pos) H).
    + rewrite Nat.add_0_r. trivial.
Qed.

(** A continuation that refuses every string starting inside a run leaves the
    quantifier no shorter choice: the match is the one of the longest run. *)
Lemma star_no_shorter (p : ascii -> bool) (k : Regex.Cont) (g : Regex.groups) :
  (forall pos c s, p c = true -> k pos (String c s) g = None) ->
  forall s pos,
    Regex.star p k pos s g =
    k (pos + String.length (fst (span p s)))%nat (snd (span p s)) g.
Proof.
  intros Hk. induction s as [|c s IH]; intros pos; simpl.
  - now rewrite Nat.add_0_r.
  - destruct (p c) eqn:E; simpl.
    + rewrite IH. destruct (span p s) as [run rest]; simpl.
      rewrite Nat.add_succ_r.
      destruct (k (S (pos + String.length run)) rest g); [reflexivity | ].
      now apply Hk.
    + now rewrite Nat.add_0_r.
Qed.

Lemma star_accepting (p : ascii -> bool) (g : Regex.groups) :
  forall (s : string) (pos : nat), Regex.star p (fun _ _ g' => Some g') pos s g = Some g.
Proof.
  induction s as [|c s IH]; intros pos; simpl; [reflexivity | ].
  destruct (p c); [ | reflexivity]. now rewrite IH.
Qed.

Lemma span_cons (p : ascii -> bool) (c : ascii) (s : string) :
  p c = true -> span p (String c s) = (String c (fst (span p s)), snd (span p s)).
Proof. intros H. simpl. rewrite H. now destruct (span p s). Qed.

Lemma span_stop (p : ascii -> bool) (c : ascii) (s : string) :
  p c = false -> span p (String c s) = ("", String c s).
Proof. intros H. simpl. now rewrite H. Qed.

Lemma run_text (p : ascii -> bool) (pos : nat) (c : ascii) (s : string) :
  substring 0 (S pos + String.length (fst (span p s)) - pos) (String c s)
  = String c (fst (span p s)).
Proof.
  replace (S pos + String.length (fst (span p s)) - pos)%nat
    with (S (String.length (fst (span p s)))) by lia.
  simpl. now rewrite substring_span.
Qed.

Section GroupOfARun.

Variables (name : string) (p : ascii -> bool) (k : Regex.Cont).

Let pattern : Regex.regex := Regex.Rgroup (Some name) (Regex.Rplus p).

Lemma rmatch_group_of_run (pos : nat) (c : ascii) (s : string) (g : Regex.groups) :
  Regex.rmatch pattern k pos (String c s) g =
  if p c then
    Regex.star p
      (fun pos' s' g' =>
         k pos' s' (Regex.record (Some name) (substring 0 (pos' - pos) (String c s)) g'))
      (S pos) s g
  else None.
Proof. reflexivity. Qed.

(** [(?<name>c+)] on a string that starts with no [c]. *)
Lemma group_of_no_run (pos : nat) (s : string) (g : Regex.groups) :
  fst (span p s) = "" -> Regex.rmatch pattern k pos s g = None.
Proof.
  destruct s as [|c s]; [reflexivity | ].
  rewrite rmatch_group_of_run.
  destruct (p c) eqn:E; [ | reflexivity].
  now rewrite (span_cons p c s E).
Qed.

(** [(?<name>c+)] when what follows matches after the longest run: the group
    is that run. *)
Lemma group_of_longest_run (pos : nat) (s : string) (g res : Regex.groups) :
  truthy (fst (span p s)) = true ->
  k (pos + String.length (fst (span p s)))%nat (snd (span p s))
    ((name, fst (span p s)) :: g) = Some res ->
  Regex.rmatch pattern k pos s g = Some res.
Proof.
  destruct s as [|c s]; [discriminate | ].
  rewrite rmatch_group_of_run.
  destruct (p c) eqn:E; [ | now rewrite (span_stop p c s E)].
  rewrite (span_cons p c s E). cbn [fst snd String.length]. intros _ H.
  apply star_longest. unfold Regex.record.
  rewrite run_text.
  now rewrite Nat.add_succ_r in H.
Qed.

(** [(?<name>c+)] when what follows refuses every string that starts with a
    [c]: no shorter run can help, the outcome is the one after the longest. *)
Lemma group_of_only_run (pos : nat) (s : string) (g : Regex.groups) :
  (forall pos' c s' g', p c = true -> k pos' (String c s') g' = None) ->
  truthy (fst (span p s)) = true ->
  Regex.rmatch pattern k pos s g =
  k (pos + String.length (fst (span p s)))%nat (snd (span p s))
    ((name, fst (span p s)) :: g).
Proof.
  intros Hk. destruct s as [|c s]; [discriminate | ].
  rewrite rmatch_group_of_run.
  destruct (p c) eqn:E; [ | now rewrite (span_stop p c s E)].
  rewrite (span_cons p c s E). cbn [fst snd String.length]. intros _.
  rewrite star_no_shorter.
  - unfold Regex.record. rewrite run_text. now rewrite Nat.add_succ_r.
  - intros pos' c' s' Hc. now apply Hk.
Qed.

End GroupOfARun.

(** The unfolding equations of the matcher that the pattern needs. *)
Lemma rmatch_seq (a b : Regex.regex) (k : Regex.Cont) pos s g :
  Regex.rmatch (Regex.Rseq a b) k pos s g =
  Regex.rmatch a (fun pos' s' g' => Regex.rmatch b k pos' s' g') pos s g.
Proof. reflexivity. Qed.

Lemma rmatch_dot_then (b : Regex.regex) (k : Regex.Cont) pos s g :
  Regex.rmatch (Regex.Rseq (Regex.Rchar ".") b) k pos s g =
  match s with
  | String "." s' => Regex.rmatch b k (S pos) s' g
  | _ => None
  end.
Proof.
  destruct s as [|c s]; [reflexivity | ].
  simpl. destruct (Ascii.eqb_spec c ".") as [-> | Hc]; [reflexivity | ].
  destruct c as [[] [] [] [] [] [] [] []]; try reflexivity.
  now contradiction Hc.
Qed.

Lemma rmatch_patch (pos : nat) (s : string) (g : Regex.groups) :
  Regex.rmatch
    (Regex.Rseq (Regex.Rchar ".") (Regex.Rgroup (Some "patch") (Regex.Rplus is_digit)))
    (fun pos' s' g' => Regex.star Regex.dot accept pos' s' g') pos s g =
  option_map (fun patch => ("patch", patch) :: g) (patch_of s).
Proof.
  rewrite rmatch_dot_then. unfold patch_of.
  destruct s as [|c s]; [reflexivity | ].
  destruct c as [[] [] [] [] [] [] [] []]; try reflexivity.
  destruct (fst (span is_digit s)) as [|d run] eqn:E.
  - now apply group_of_no_run.
  - apply group_of_longest_run; rewrite E; [reflexivity | ].
    apply star_accepting.
Qed.

Lemma rmatch_pattern_end (pos : nat) (s : string) (g : Regex.groups) :
  Regex.rmatch pattern_end accept pos s g =
  Some (match patch_of s with
        | Some patch => ("patch", patch) :: g
        | None => g
        end).
Proof.
  unfold pattern_end. rewrite rmatch_seq.
  change (Regex.rmatch (Regex.Ropt (Regex.Rgroup None ?a)) ?k pos s g)
    with (match Regex.rmatch a k pos s g with
          | Some res => Some res
          | None => k pos s g
          end).
  change (fun pos' s' g' => Regex.rmatch (Regex.Rstar Regex.dot) accept pos' s' g')
    with (fun pos' s' g' => Regex.star Regex.dot accept pos' s' g').
  rewrite rmatch_patch.
  destruct (patch_of s); [reflexivity | ].
  apply star_accepting.
Qed.

Lemma rmatch_majorMinorPattern (v : string) :
  Regex.rmatch majorMinorPattern accept 0 v [] = option_map groups_of (parse_version v).
Proof.
  unfold majorMinorPattern. rewrite rmatch_seq.
  change (Regex.rmatch Regex.Rbegin ?k 0 v []) with (k 0%nat v []). cbv beta.
  rewrite rmatch_seq. unfold parse_version.
  destruct (span is_digit v) as [major rest] eqn:Emajor.
  destruct major as [|c major].
  { apply group_of_no_run. now rewrite Emajor. }
  rewrite group_of_only_run.
  2:{ intros pos' d s' g' Hd. rewrite rmatch_dot_then.
      destruct d as [[] [] [] [] [] [] [] []]; try reflexivity. discriminate Hd. }
  2:{ now rewrite Emajor. }
  rewrite Emajor. cbn [fst snd].
  rewrite rmatch_dot_then.
  destruct rest as [|dot rest]; [reflexivity | ].
  destruct dot as [[] [] [] [] [] [] [] []]; try reflexivity.
  rewrite rmatch_seq.
  destruct (span is_digit rest) as [minor rest'] eqn:Eminor.
  destruct minor as [|d minor].
  { apply group_of_no_run. now rewrite Eminor. }
  erewrite group_of_longest_run.
  2:{ now rewrite Eminor. }
  2:{ rewrite Eminor. cbn [fst snd]. apply rmatch_pattern_end. }
  unfold patch_of, groups_of, option_map.
  destruct rest' as [|dot rest']; [reflexivity | ].
  destruct dot as [[] [] [] [] [] [] [] []]; try reflexivity.
  destruct (fst (span is_digit rest')); reflexivity.
Qed.

Lemma exec_from_later (s : string) :
  forall pos, pos <> 0%nat -> Regex.exec_from majorMinorPattern pos s = None.
Proof.
  induction s as [|c s IH]; intros pos Hpos.
  - simpl. destruct pos; [contradiction | reflexivity].
  - cbn [Regex.exec_from]. rewrite IH by discriminate.
    unfold majorMinorPattern. rewrite rmatch_seq.
    destruct pos; [contradiction | reflexivity].
Qed.

(** The match of the pattern is the reading of the version as
    major.minor[.patch] with anything after it. *)
Theorem exec_majorMinorPattern (v : string) :
  Regex.exec majorMinorPattern v = option_map groups_of (parse_version v).
Proof.
  unfold Regex.exec.
  assert (H := rmatch_majorMinorPattern v). unfold accept in H.
  destruct v as [|c v]; cbn [Regex.exec_from]; rewrite H.
  - reflexivity.
  - destruct (option_map groups_of (parse_version (String c v))); [reflexivity | ].
    now apply exec_from_later.
Qed.

Lemma parse_version_digits (v major minor : string) (patch : option string) :
  parse_version v = Some (major, minor, patch) ->
  all_digits minor = true /\
  match patch with
  | Some p => all_digits p = true /\ truthy p = true
  | None => True
  end.
Proof.
  unfold parse_version.
  destruct (span is_digit v) as [ma rest] eqn:E1.
  destruct ma as [|c ma]; [discriminate | ].
  destruct rest as [|dot rest]; [discriminate | ].
  destruct dot as [[] [] [] [] [] [] [] []]; try discriminate.
  destruct (span is_digit rest) as [mi rest'] eqn:E2.
  assert (Hmi : all_digits mi = true).
  { replace mi with (fst (span is_digit rest)) by now rewrite E2. apply span_digits. }
  destruct mi as [|d mi]; [discriminate | ].
  destruct rest' as [|dot rest'].
  { intros H; injection H as <- <- <-. now split. }
  destruct dot as [[] [] [] [] [] [] [] []];
    try (intros H; injection H as <- <- <-; now split).
  destruct (fst (span is_digit rest')) as [|e pa] eqn:E3;
    intros H; injection H as <- <- <-; split; trivial.
  split; [ | reflexivity]. rewrite <- E3. apply span_digits.
Qed.

(** The test of the script on the groups of a match is [rejects] on the
    numbers of the version. *)
Lemma too_old_groups_of (v major minor : string) (patch : option string) :
  parse_version v = Some (major, minor, patch) ->
  too_old (groups_of (major, minor, patch)) = rejects (value minor) (option_map value patch).
Proof.
  intros H. destruct (parse_version_digits _ _ _ _ H) as [Hmi Hpa].
  unfold too_old, rejects, value.
  destruct patch as [p|]; simpl.
  - destruct Hpa as [Hp Ht]. rewrite Hmi, Hp, Ht.
    unfold num_lt, num_eq. now rewrite andb_true_r.
  - rewrite Hmi. unfold num_lt, num_eq. now rewrite !andb_false_r.
Qed.

(** ** The monad *)

Lemma prepend_nil {A : Type} (m : M A) : prepend [] m = m.
Proof. now destruct m. Qed.

Lemma prepend_prepend {A : Type} (t1 t2 : list Event) (m : M A) :
  prepend t1 (prepend t2 m) = prepend (t1 ++ t2) m.
Proof. unfold prepend; simpl. now rewrite app_assoc. Qed.

Lemma bind_Normal {A B : Type} (t : list Event) (a : A) (k : A -> M B) :
  bind (t, Normal a) k = prepend t (k a).
Proof. unfold bind, prepend. now destruct (k a). Qed.

Lemma bind_ret {A B : Type} (a : A) (k : A -> M B) : bind (ret a) k = k a.
Proof. unfold ret. rewrite bind_Normal. apply prepend_nil. Qed.

Lemma bind_prepend {A B : Type} (t : list Event) (m : M A) (k : A -> M B) :
  bind (prepend t m) k = prepend t (bind m k).
Proof.
  destruct m as [t' [a| |message]]; unfold prepend, bind; simpl; trivial.
  destruct (k a); simpl. now rewrite app_assoc.
Qed.

Lemma bind_assoc {A B C : Type} (m : M A) (f : A -> M B) (g : B -> M C) :
  bind (bind m f) g = bind m (fun a => bind (f a) g).
Proof.
  destruct m as [t [a| |message]]; trivial.
  rewrite !bind_Normal. apply bind_prepend.
Qed.

Lemma try_catch_prepend {A : Type} (t : list Event) (m : M A) (h : string -> M A) :
  try_catch (prepend t m) h = prepend t (try_catch m h).
Proof.
  destruct m as [t' [a| |message]]; unfold prepend, try_catch; simpl; trivial.
  destruct (h message); simpl. now rewrite app_assoc.
Qed.

Lemma no_return_returns_after {A : Type} (e : Event) (m : M A) :
  no_return m -> returns_after e m.
Proof. intros H t Ht. now elim (H t). Qed.

Lemma bind_Return_inv {A B : Type} (m : M A) (k : A -> M B) (t : list Event) :
  bind m k = (t, Return_) ->
  m = (t, Return_) \/
  exists t1 a t2, m = (t1, Normal a) /\ k a = (t2, Return_) /\ t = (t1 ++ t2)%list.
Proof.
  destruct m as [t1 [a| |message]]; simpl.
  - destruct (k a) as [t2 c] eqn:E. intros H; injection H as <- ->.
    right. now exists t1, a, t2.
  - intros H; injection H as <-. now left.
  - discriminate.
Qed.

Lemma returns_after_bind {A B : Type} (e : Event) (m : M A) (k : A -> M B) :
  returns_after e m -> (forall a, returns_after e (k a)) -> returns_after e (bind m k).
Proof.
  intros Hm Hk t Ht. apply bind_Return_inv in Ht as [Ht | (t1 & a & t2 & _ & Hka & ->)].
  - now apply Hm.
  - destruct (Hk a t2 Hka) as [t' ->]. exists (t1 ++ t')%list. now rewrite app_assoc.
Qed.

Lemma no_return_bind {A B : Type} (m : M A) (k : A -> M B) :
  no_return m -> (forall a, no_return (k a)) -> no_return (bind m k).
Proof.
  intros Hm Hk t Ht. apply bind_Return_inv in Ht as [Ht | (t1 & a & t2 & _ & Hka & _)].
  - now apply (Hm t).
  - now apply (Hk a t2).
Qed.

Lemma no_return_ret {A : Type} (a : A) : no_return (ret a).
Proof. intros t; discriminate. Qed.

Lemma no_return_emit (e : Event) : no_return (emit e).
Proof. intros t; discriminate. Qed.

Lemma no_return_call {A : Type} (e : Event) (r : Result A) : no_return (call e r).
Proof. intros t; destruct r; discriminate. Qed.

Lemma no_return_eval {A : Type} (r : Result A) : no_return (eval r).
Proof. intros t; destruct r; discriminate. Qed.

Lemma no_return_returned_true {A : Type} (m : M A) : no_return m -> no_return (returned_true m).
Proof.
  intros H t. destruct m as [t' [a| |message]]; simpl; try discriminate.
  now elim (H t').
Qed.

Lemma try_catch_Return_inv {A : Type} (m : M A) (h : string -> M A) (t : list Event) :
  (forall message, no_return (h message)) ->
  try_catch m h = (t, Return_) -> m = (t, Return_).
Proof.
  intros Hh. destruct m as [t' [a| |message]]; simpl; trivial.
  destruct (h message) as [t'' c] eqn:E. intros H; injection H as <- ->.
  now elim (Hh message t'').
Qed.

Lemma prepend_Return_inv {A : Type} (t0 t : list Event) (m : M A) :
  prepend t0 m = (t, Return_) -> exists t1, m = (t1, Return_) /\ t = (t0 ++ t1)%list.
Proof.
  destruct m as [t1 c]; unfold prepend; simpl.
  intros H; injection H as <- ->. now exists t1.
Qed.

Create HintDb returns.

#[local] Hint Resolve no_return_ret no_return_emit no_return_call no_return_eval
  no_return_bind no_return_returned_true no_return_returns_after returns_after_bind
  : returns.

(** *** What a piece of the body leaves in the trace *)

Lemma trace_all_ret {A : Type} (P : Event -> Prop) (a : A) : trace_all P (ret a).
Proof. constructor. Qed.

Lemma trace_all_return (P : Event -> Prop) (A : Type) : trace_all P (@return_ A).
Proof. constructor. Qed.

Lemma trace_all_eval {A : Type} (P : Event -> Prop) (r : Result A) : trace_all P (eval r).
Proof. constructor. Qed.

Lemma trace_all_emit (P : Event -> Prop) (e : Event) : P e -> trace_all P (emit e).
Proof. intros H. now constructor. Qed.

Lemma trace_all_call {A : Type} (P : Event -> Prop) (e : Event) (r : Result A) :
  P e -> trace_all P (call e r).
Proof. intros H. now constructor. Qed.

Lemma trace_all_bind {A B : Type} (P : Event -> Prop) (m : M A) (k : A -> M B) :
  trace_all P m -> (forall a, trace_all P (k a)) -> trace_all P (bind m k).
Proof.
  unfold trace_all. intros Hm Hk. destruct m as [t [a| |message]]; simpl in *; trivial.
  specialize (Hk a). destruct (k a) as [t' c]; simpl in *.
  apply Forall_app. now split.
Qed.

Lemma trace_all_returned_true {A : Type} (P : Event -> Prop) (m : M A) :
  trace_all P m -> trace_all P (returned_true m).
Proof. unfold trace_all. now destruct m as [t [a| |message]]. Qed.

Lemma trace_all_try_catch {A : Type} (P : Event -> Prop) (m : M A) (h : string -> M A) :
  trace_all P m -> (forall message, trace_all P (h message)) -> trace_all P (try_catch m h).
Proof.
  unfold trace_all. intros Hm Hh. destruct m as [t [a| |message]]; simpl in *; trivial.
  specialize (Hh message). destruct (h message) as [t' c]; simpl in *.
  apply Forall_app. now split.
Qed.

(** Splits a goal on a piece of the body along its sequencing and its tests. *)
Ltac through_body lemma_bind :=
  repeat first
    [ apply lemma_bind; [ | intros ? ]
    | match goal with
      | |- context [if ?b then _ else _] => destruct b
      end ].

(** ** The phases of [main] *)

Section Phases.

Variable w : World.

Lemma download_run :
  download w =
  ([Einfo ("Downloading OpenTAP: " ++ join "," (args w)); EdownloadTool (download_address w)],
   match tc_downloadTool w (download_address w) with
   | Ok file => Normal file
   | Err message => Throw message
   end).
Proof.
  unfold download, downloadTool, info, emit, call, bind.
  now destruct (tc_downloadTool w (download_address w)).
Qed.

(** [extractZip]: the tool-cache call first, PowerShell only after it failed,
    [false] only after both failed. *)
Lemma extractZip_run (file dest : string) :
  extractZip w file dest =
  if failed (tc_extractZip w file dest) then
    ([EextractZip file dest; Eexec "pwsh" (expand_archive file dest)],
     Normal (negb (failed (exec_exec w "pwsh" (expand_archive file dest)))))
  else ([EextractZip file dest], Normal true).
Proof.
  unfold extractZip, exec, call, returned_true, bind, ret.
  destruct (tc_extractZip w file dest); simpl; [reflexivity | ].
  now destruct (exec_exec w "pwsh" (expand_archive file dest)).
Qed.

Lemma extract_run (file : string) :
  extract w file =
  let unzipping := Einfo ("Unzipping OpenTAP: " ++ file) in
  let primary := EextractZip file (destDir w) in
  let secondary := Eexec "pwsh" (expand_archive file (destDir w)) in
  if failed (tc_extractZip w file (destDir w)) then
    if failed (exec_exec w "pwsh" (expand_archive file (destDir w))) then
      ([unzipping; primary; secondary; EsetFailed extraction_failed], Return_)
    else ([unzipping; primary; secondary], Normal tt)
  else ([unzipping; primary], Normal tt).
Proof.
  unfold extract. rewrite extractZip_run.
  destruct (failed (tc_extractZip w file (destDir w))); [ | reflexivity].
  now destruct (failed (exec_exec w "pwsh" (expand_archive file (destDir w)))).
Qed.

Lemma version_gate_run (hasToken : bool) :
  version_gate w hasToken =
  if hasVersion w && hasToken then
    match parse_version (version w) with
    | Some (_, minor, patch) =>
        if rejects (value minor) (option_map value patch)
        then ([EsetFailed version_too_old], Return_)
        else ([], Normal tt)
    | None => ([], Throw (null_groups_message w))
    end
  else ([], Normal tt).
Proof.
  unfold version_gate. destruct (hasVersion w && hasToken); [ | reflexivity].
  rewrite exec_majorMinorPattern.
  destruct (parse_version (version w)) as [[[major minor] patch]|] eqn:E; [ | reflexivity].
  unfold option_map at 1.
  unfold eval. rewrite bind_Normal, prepend_nil.
  rewrite (too_old_groups_of _ _ _ _ E).
  now destruct (rejects (value minor) (option_map value patch)).
Qed.

(** Only [extract] and [version_gate] execute [return;]. *)
Lemma no_return_exec (command : string) (arguments : list string) :
  no_return (exec w command arguments).
Proof. apply no_return_call. Qed.

Lemma no_return_configure : no_return (configure w).
Proof.
  unfold configure, mkdirSync, info, exec, addPath.
  through_body @no_return_bind; auto with returns.
Qed.

Lemma no_return_collect_repositories : no_return (collect_repositories w).
Proof.
  unfold collect_repositories, new_URL_host, writeFileSync, debug.
  apply no_return_bind; [auto with returns | intros host].
  through_body @no_return_bind; auto with returns.
Qed.

Lemma no_return_write_authentication (hasToken : bool) (repositories : list Repository) :
  no_return (write_authentication w hasToken repositories).
Proof.
  unfold write_authentication, writeFileSync, debug.
  through_body @no_return_bind; auto with returns.
Qed.

Lemma no_return_install_image (repositories : list Repository) :
  no_return (install_image w repositories).
Proof.
  unfold install_image, writeFileSync, debug, exec.
  through_body @no_return_bind; auto with returns.
Qed.

Lemma returns_after_extract (file : string) :
  returns_after (EsetFailed extraction_failed) (extract w file).
Proof.
  intros t. rewrite extract_run. cbv zeta.
  destruct (failed (tc_extractZip w file (destDir w)));
    [destruct (failed (exec_exec w "pwsh" (expand_archive file (destDir w)))) | ];
    try discriminate.
  intros H; injection H as <-.
  now exists [Einfo ("Unzipping OpenTAP: " ++ file); EextractZip file (destDir w);
              Eexec "pwsh" (expand_archive file (destDir w))].
Qed.

Lemma returns_after_version_gate (hasToken : bool) :
  returns_after (EsetFailed version_too_old) (version_gate w hasToken).
Proof.
  intros t. rewrite version_gate_run.
  destruct (hasVersion w && hasToken); [ | discriminate].
  destruct (parse_version (version w)) as [[[major minor] patch]|]; [ | discriminate].
  destruct (rejects (value minor) (option_map value patch)); [ | discriminate].
  intros H; injection H as <-. now exists [].
Qed.

End Phases.

Section Decomposition.

Variable w : World.

Lemma main_after_setup (t1 : list Event) :
  setup w = (t1, Normal tt) ->
  main w =
  prepend t1
    (try_catch
       ((if truthy (getInput w "packages") then install_packages w else ret tt) ;;
        exec w "tap" package_list)
       (fun message => setFailed message)).
Proof.
  intros H. unfold main, main_try. now rewrite H, bind_Normal, try_catch_prepend.
Qed.

Lemma main_after_repositories (t1 t2 : list Event) (repositories : list Repository) :
  setup w = (t1, Normal tt) ->
  truthy (getInput w "packages") = true ->
  collect_repositories w = (t2, Normal repositories) ->
  main w =
  prepend (t1 ++ t2)
    (try_catch (after_repositories w repositories ;; exec w "tap" package_list)
       (fun message => setFailed message)).
Proof.
  intros H1 Hp H2. rewrite (main_after_setup t1 H1), Hp.
  unfold install_packages.
  now rewrite H2, bind_Normal, bind_prepend, try_catch_prepend, prepend_prepend.
Qed.

Lemma no_return_setFailed (message : string) : no_return (setFailed message).
Proof. apply no_return_emit. Qed.

(** After the repositories are known, the run returns early only from the gate. *)
Lemma after_repositories_Return_inv (repositories : list Repository) (t : list Event) :
  try_catch (after_repositories w repositories ;; exec w "tap" package_list)
    (fun message => setFailed message) = (t, Return_) ->
  version_gate w (existsb has_token repositories) = (t, Return_).
Proof.
  intros H. apply try_catch_Return_inv in H; [ | apply no_return_setFailed].
  apply bind_Return_inv in H as [H | (t1 & a & t2 & _ & H & _)];
    [ | now elim (no_return_exec w _ _ _ H)].
  unfold after_repositories in H.
  apply bind_Return_inv in H as [H | (t1 & a & t2 & _ & H & _)]; [exact H | ].
  apply bind_Return_inv in H as [H | (t1' & a' & t2' & _ & H & _)].
  - now elim (no_return_write_authentication w _ _ _ H).
  - now elim (no_return_install_image w _ _ H).
Qed.

End Decomposition.

Lemma rejects_spec (minor : N) (patch : option N) :
  rejects minor patch = true <->
  (minor < 21)%N \/ (minor = 21%N /\ exists p, patch = Some p /\ (p < 1)%N).
Proof.
  unfold rejects. rewrite orb_true_iff, andb_true_iff, N.ltb_lt, N.eqb_eq.
  split; (intros [H | [H1 H2]]; [now left | right; split; [exact H1 | ]]).
  - destruct patch as [p|]; [ | discriminate]. exists p. now rewrite <- N.ltb_lt.
  - destruct H2 as (p & -> & Hp). now rewrite N.ltb_lt.
Qed.

(** C1 (version gate).  Take a run that reaches the gate: [setup] went through
    with trace [t1], the packages input is present, and the repositories were
    collected with trace [t2]; a version is configured and some repository
    has a non-empty token.  The run is then aborted by the gate -- its trace
    ends there with the minimum-version message and [main] returns early --
    if and only if the version, read as major.minor[.patch] with anything
    after it, has minor < 21, or minor = 21 and a patch that is present and
    below 1.  In particular minor 20 rejects, minor 21 without patch accepts,
    21 with patch 0 rejects, 21 with patch 1 accepts, and 22 accepts whatever
    the patch. *)
Theorem C1_version_gate (w : World) (t1 t2 : list Event) (repositories : list Repository) :
  setup w = (t1, Normal tt) ->
  truthy (getInput w "packages") = true ->
  collect_repositories w = (t2, Normal repositories) ->
  hasVersion w = true ->
  existsb has_token repositories = true ->
  (main w = ((t1 ++ t2) ++ [EsetFailed version_too_old], Return_)%list
   <-> gate_rejects (version w) = true)
  /\ (gate_rejects (version w) = true <->
      exists major minor patch,
        parse_version (version w) = Some (major, minor, patch) /\
        ((value minor < 21)%N \/
         (value minor = 21%N /\ exists p, patch = Some p /\ (value p < 1)%N)))
  /\ (forall patch, rejects 20 patch = true)
  /\ rejects 21 None = false
  /\ rejects 21 (Some 0%N) = true
  /\ rejects 21 (Some 1%N) = false
  /\ (forall patch, rejects 22 patch = false).
Proof.
  intros Hsetup Hpackages Hrepos Hversion Htoken.
  rewrite (main_after_repositories w t1 t2 repositories Hsetup Hpackages Hrepos).
  assert (Hgate := version_gate_run w (existsb has_token repositories)).
  rewrite Hversion, Htoken in Hgate. cbn [andb] in Hgate.
  unfold gate_rejects.
  split; [split | split; [split | ]].
  - intros H. apply prepend_Return_inv in H as (t & H & _).
    apply after_repositories_Return_inv in H. rewrite Htoken, Hgate in H.
    destruct (parse_version (version w)) as [[[major minor] patch]|]; [ | discriminate].
    now destruct (rejects (value minor) (option_map value patch)).
  - intros H. unfold after_repositories. rewrite Htoken, Hgate.
    destruct (parse_version (version w)) as [[[major minor] patch]|]; [ | discriminate].
    rewrite H. reflexivity.
  - destruct (parse_version (version w)) as [[[major minor] patch]|]; [ | discriminate].
    intros H. exists major, minor, patch. split; [reflexivity | ].
    apply rejects_spec in H as [H | (H & p & Hp & Hlt)]; [now left | right].
    split; [exact H | ]. destruct patch as [p'|]; [ | discriminate].
    exists p'. split; [reflexivity | ]. now injection Hp as <-.
  - intros (major & minor & patch & -> & H). apply rejects_spec.
    destruct H as [H | (H & p & -> & Hlt)]; [now left | right].
    split; [exact H | ]. now exists (value p).
  - repeat split; try reflexivity; intros [p|]; reflexivity.
Qed.

(** ** What a run wrote and ran *)

(** Breaks [trace_all P body] into one goal [P e] per event of the body. *)
Ltac trace_events :=
  cbv beta zeta;
  repeat first
    [ apply trace_all_ret | apply trace_all_return | apply trace_all_eval
    | apply trace_all_emit | apply trace_all_call
    | apply trace_all_returned_true
    | apply trace_all_bind; [ | intros ?; cbv beta zeta ]
    | apply trace_all_try_catch; [ | intros ?; cbv beta zeta ]
    | match goal with
      | |- trace_all _ (if ?b then _ else _) => destruct b
      | |- trace_all _ (match ?r with Ok _ => _ | Err _ => _ end) => destruct r
      end ].

Ltac unfold_body :=
  unfold main, main_try, setup, install_packages, after_repositories, download, extract,
    extractZip, configure, collect_repositories, version_gate, write_authentication,
    install_image, info, debug, setFailed, addPath, downloadTool, exec, mkdirSync,
    writeFileSync, new_URL_host.

Lemma settings_files_differ (w : World) : package_manager_file w <> authentication_file w.
Proof.
  unfold package_manager_file, authentication_file. intros H.
  apply append_cancel_l in H. discriminate H.
Qed.

Lemma setup_before_installing (w : World) : trace_all (before_installing w) (setup w).
Proof.
  unfold_body. trace_events; (split; intros x; discriminate).
Qed.

Lemma collect_repositories_before_installing (w : World) :
  trace_all (before_installing w) (collect_repositories w).
Proof.
  unfold_body. trace_events; (split; intros x; try discriminate).
  intros H. injection H as H _. now apply (settings_files_differ w).
Qed.

Lemma before_installing_quiet (w : World) (t : list Event) :
  Forall (before_installing w) t ->
  ~ writes (authentication_file w) t /\ forall arguments, ~ executes "tap" arguments t.
Proof.
  intros H. rewrite Forall_forall in H. split.
  - intros [data Hin]. now apply (proj1 (H _ Hin) data).
  - intros arguments Hin. now apply (proj2 (H _ Hin) arguments).
Qed.

(** C9 (a rejected version).  When the gate rejects in a run that reached it,
    the run ends there: the trace is the one up to the gate followed by the
    failure with the message that names the minimum version, [main] returns
    early, and the trace has neither a write of AuthenticationSettings.xml nor
    the [tap image install] subprocess (nor the package list after it). *)
Theorem C9_rejection_stops_the_run
  (w : World) (t1 t2 : list Event) (repositories : list Repository) :
  setup w = (t1, Normal tt) ->
  truthy (getInput w "packages") = true ->
  collect_repositories w = (t2, Normal repositories) ->
  hasVersion w = true ->
  existsb has_token repositories = true ->
  gate_rejects (version w) = true ->
  main w = ((t1 ++ t2) ++ [EsetFailed version_too_old], Return_)%list
  /\ version_too_old = "repository-token support requires OpenTAP 9.22.0 or greater."
  /\ ~ writes (authentication_file w) (fst (main w))
  /\ ~ executes "tap" image_install (fst (main w))
  /\ ~ executes "tap" package_list (fst (main w)).
Proof.
  intros Hsetup Hpackages Hrepos Hversion Htoken Hgate.
  assert (Hmain : main w = ((t1 ++ t2) ++ [EsetFailed version_too_old], Return_)%list).
  { rewrite (main_after_repositories w t1 t2 repositories Hsetup Hpackages Hrepos).
    unfold after_repositories. rewrite version_gate_run, Hversion, Htoken.
    unfold gate_rejects in Hgate. cbn [andb].
    destruct (parse_version (version w)) as [[[major minor] patch]|]; [ | discriminate].
    now rewrite Hgate. }
  split; [exact Hmain | ]. split; [reflexivity | ].
  rewrite Hmain. cbn [fst].
  assert (H1 : Forall (before_installing w) t1).
  { generalize (setup_before_installing w). unfold trace_all. now rewrite Hsetup. }
  assert (H2 : Forall (before_installing w) t2).
  { generalize (collect_repositories_before_installing w). unfold trace_all.
    now rewrite Hrepos. }
  assert (H : Forall (before_installing w) ((t1 ++ t2) ++ [EsetFailed version_too_old])).
  { repeat (apply Forall_app; split); trivial.
    constructor; [ | constructor]. split; intros x; discriminate. }
  destruct (before_installing_quiet w _ H) as [Hw He]. repeat split; trivial.
Qed.

(** ** Extraction *)

Lemma main_after_download (w : World) (file : string) :
  tc_downloadTool w (download_address w) = Ok file ->
  main w =
  prepend
    [Einfo ("Downloading OpenTAP: " ++ join "," (args w)); EdownloadTool (download_address w)]
    (try_catch (extract w file ;; after_extraction w) (fun message => setFailed message)).
Proof.
  intros H. unfold main, main_try, setup, after_extraction.
  rewrite download_run, H, !bind_assoc, bind_Normal, try_catch_prepend.
  now rewrite !bind_assoc.
Qed.

Lemma returns_after_after_extraction (w : World) :
  returns_after (EsetFailed version_too_old) (after_extraction w).
Proof.
  unfold after_extraction, install_packages, after_repositories.
  apply returns_after_bind; [ | intros _].
  { apply no_return_returns_after, no_return_configure. }
  apply returns_after_bind; [ | intros _].
  2:{ apply no_return_returns_after, no_return_exec. }
  destruct (truthy (getInput w "packages")); [ | auto with returns].
  apply returns_after_bind; [ | intros repositories].
  { apply no_return_returns_after, no_return_collect_repositories. }
  apply returns_after_bind; [apply returns_after_version_gate | intros _].
  apply no_return_returns_after, no_return_bind; [ | intros _].
  - apply no_return_write_authentication.
  - apply no_return_install_image.
Qed.

Lemma after_extraction_not_powershell (w : World) :
  trace_all not_powershell
    (try_catch (after_extraction w) (fun message => setFailed message)).
Proof.
  unfold after_extraction. unfold_body. trace_events; intros x; discriminate.
Qed.

(** C8 (extraction falls back).  In a run whose download succeeded, the
    tool-cache extraction is attempted first, right after the download; the
    PowerShell [Expand-Archive] subprocess is the next event exactly when that
    attempt failed, and is never run otherwise.  The run ends by the early
    return after the failure "Unable to extract zip archive." if and only if
    both attempts failed, and then the trace stops there: no settings
    directory is made and nothing runs after PowerShell. *)
Theorem C8_extraction_fallback (w : World) (file : string) :
  tc_downloadTool w (download_address w) = Ok file ->
  let primary := EextractZip file (destDir w) in
  let secondary := Eexec "pwsh" (expand_archive file (destDir w)) in
  let attempted :=
    [ Einfo ("Downloading OpenTAP: " ++ join "," (args w));
      EdownloadTool (download_address w);
      Einfo ("Unzipping OpenTAP: " ++ file);
      primary ] in
  let primary_failed := failed (tc_extractZip w file (destDir w)) in
  let secondary_failed := failed (exec_exec w "pwsh" (expand_archive file (destDir w))) in
  (exists t, fst (main w) = (attempted ++ t)%list /\
             if primary_failed then hd_error t = Some secondary
             else forall arguments, ~ executes "pwsh" arguments t)
  /\ ((exists t, main w = ((t ++ [EsetFailed extraction_failed])%list, Return_))
      <-> primary_failed = true /\ secondary_failed = true)
  /\ (primary_failed = true -> secondary_failed = true ->
      main w = ((attempted ++ [secondary; EsetFailed extraction_failed])%list, Return_)
      /\ forall dir, ~ In (EmkdirSync dir) (fst (main w))).
Proof.
  intros Hdownload primary secondary attempted primary_failed secondary_failed.
  rewrite (main_after_download w file Hdownload), extract_run. cbv zeta.
  fold primary secondary primary_failed secondary_failed.
  assert (Hrest : forall t0 t,
            prepend t0 (try_catch (after_extraction w) (fun message => setFailed message))
            = ((t ++ [EsetFailed extraction_failed])%list, Return_) -> False).
  { intros t0 t H. apply prepend_Return_inv in H as (t1 & H & Ht).
    apply try_catch_Return_inv in H; [ | apply no_return_setFailed].
    apply returns_after_after_extraction in H as [t' ->].
    rewrite app_assoc in Ht. apply app_inj_tail in Ht as [_ Ht]. discriminate Ht. }
  destruct primary_failed; [destruct secondary_failed | ].
  - (* both failed *)
    split; [ | split].
    + exists [secondary; EsetFailed extraction_failed]. now split.
    + split; [now split | intros _].
      now exists (attempted ++ [secondary])%list.
    + intros _ _. split; [reflexivity | ].
      intros dir [H | [H | [H | [H | [H | [H | []]]]]]]; discriminate H.
  - (* the secondary mechanism extracted *)
    rewrite bind_Normal, try_catch_prepend, prepend_prepend.
    split; [ | split].
    + exists (secondary
                :: fst (try_catch (after_extraction w) (fun message => setFailed message))).
      now split.
    + split; [ | intros [_ H]; discriminate H].
      intros [t H]. now elim (Hrest _ _ H).
    + intros _ H; discriminate H.
  - (* the primary mechanism extracted *)
    rewrite bind_Normal, try_catch_prepend, prepend_prepend.
    split; [ | split].
    + exists (fst (try_catch (after_extraction w) (fun message => setFailed message))).
      split; [reflexivity | ].
      intros arguments Hin.
      generalize (after_extraction_not_powershell w). unfold trace_all.
      rewrite Forall_forall. intros Hall. now apply (Hall _ Hin arguments).
    + split; [ | intros [H _]; discriminate H].
      intros [t H]. now elim (Hrest _ _ H).
    + intros H; discriminate H.
Qed.

(** ** Runs without packages *)

Lemma list_only_not_installing (w : World) :
  trace_all no_write_no_install
    (try_catch (setup w ;; exec w "tap" package_list) (fun message => setFailed message)).
Proof.
  unfold_body. unfold package_list.
  trace_events; (split; [intros x y | ]; discriminate).
Qed.

(** C10 (no packages).  When the packages input is empty or absent, the run
    is the run of the script without its package block: whatever the version,
    the tokens and the additional repository are, there is no version gate
    (the only early return left is the one of a failed extraction), no file
    is written at all (so neither of the two settings files nor image.json),
    [tap image install] is not run, and after a setup that went through the
    only thing that happens is the [tap package list --installed] subprocess
    (followed by the failure report when that subprocess fails). *)
Theorem C10_no_packages (w : World) :
  truthy (getInput w "packages") = false ->
  main w =
    try_catch (setup w ;; exec w "tap" package_list) (fun message => setFailed message)
  /\ (forall file, ~ writes file (fst (main w)))
  /\ ~ executes "tap" image_install (fst (main w))
  /\ (forall t, main w = (t, Return_) -> ends_with (EsetFailed extraction_failed) t)
  /\ (forall t1, setup w = (t1, Normal tt) ->
      main w =
      ((t1 ++ Eexec "tap" package_list ::
          match exec_exec w "tap" package_list with
          | Ok _ => []
          | Err message => [EsetFailed message]
          end)%list,
       Normal tt)).
Proof.
  intros Hpackages.
  assert (Hmain : main w =
    try_catch (setup w ;; exec w "tap" package_list) (fun message => setFailed message)).
  { unfold main, main_try. now rewrite Hpackages, bind_ret. }
  split; [exact Hmain | ].
  assert (Hall := list_only_not_installing w).
  rewrite <- Hmain in Hall. unfold trace_all in Hall. rewrite Forall_forall in Hall.
  repeat split.
  - intros file [data Hin]. now apply (proj1 (Hall _ Hin) file data).
  - intros Hin. now apply (proj2 (Hall _ Hin)).
  - intros t. rewrite Hmain. intros H.
    apply try_catch_Return_inv in H; [ | apply no_return_setFailed].
    revert t H. change (returns_after (EsetFailed extraction_failed)
                          (setup w ;; exec w "tap" package_list)).
    unfold setup.
    apply returns_after_bind; [ | intros _; apply no_return_returns_after, no_return_exec].
    apply returns_after_bind; [ | intros file].
    { apply no_return_returns_after. unfold download, info, downloadTool.
      auto with returns. }
    apply returns_after_bind; [apply returns_after_extract | intros _].
    apply no_return_returns_after, no_return_configure.
  - intros t1 Hsetup. rewrite Hmain, Hsetup, bind_Normal, try_catch_prepend.
    unfold exec, call. now destruct (exec_exec w "tap" package_list) as [[]|message].
Qed.

(** ** The authentication settings *)

Lemma authentication_loop (repositories : list Repository) :
  forall xml,
    fold_left
      (fun xml repo =>
         if truthy_opt (token repo) then
           xml ++ (nl ++
             "    <TokenInfo>" ++ nl ++
             "      <AccessToken>" ++ template (token repo) ++ "</AccessToken>" ++ nl ++
             "      <Domain>" ++ domain repo ++ "</Domain>" ++ nl ++
             "    </TokenInfo>" ++ nl)
         else xml)
      repositories xml
    = xml ++ glue (token_entries repositories).
Proof.
  induction repositories as [|repo rest IH]; intros xml; cbn [fold_left token_entries glue].
  - now rewrite append_nil_r.
  - rewrite IH. destruct (token repo) as [[|c value]|]; cbn [truthy_opt truthy glue];
      try reflexivity.
    rewrite append_assoc. reflexivity.
Qed.

Lemma token_entries_filter (repositories : list Repository) :
  token_entries repositories =
  map (fun repo => TokenInfo (template (token repo)) (domain repo))
    (filter has_token repositories).
Proof.
  induction repositories as [|repo rest IH]; [reflexivity | ].
  cbn [token_entries filter]. unfold has_token at 1.
  destruct (token repo) as [[|c value]|] eqn:E; cbn [truthy_opt truthy map]; rewrite IH;
    try reflexivity.
  now rewrite E.
Qed.

(** C2 (authentication settings).  For every sequence of repositories the
    document is the fixed opening, then one [TokenInfo] entry per repository
    with a non-empty token, in input order, each with that repository's token
    and domain, then the fixed closing; a repository whose token is
    [undefined] or empty adds nothing, so the empty sequence and every
    sequence without tokens give the document with no entry. *)
Theorem C2_authentication_entries (repositories : list Repository) :
  GetAuthenticationSettings repositories = authentication_document (token_entries repositories)
  /\ token_entries repositories =
     map (fun repo => TokenInfo (template (token repo)) (domain repo))
       (filter has_token repositories)
  /\ List.length (token_entries repositories) = List.length (filter has_token repositories)
  /\ GetAuthenticationSettings [] = authentication_document []
  /\ GetAuthenticationSettings (filter (fun repo => negb (has_token repo)) repositories)
     = authentication_document []
  /\ GetAuthenticationSettings
       [mkRepository "" "a.com" (Some "t1"); mkRepository "" "b.com" None]
     = authentication_document [TokenInfo "t1" "a.com"].
Proof.
  assert (Hdoc : forall l, GetAuthenticationSettings l = authentication_document (token_entries l)).
  { intros l. unfold GetAuthenticationSettings, authentication_document.
    cbv zeta. rewrite authentication_loop. apply append_assoc. }
  split; [apply Hdoc | ].
  split; [apply token_entries_filter | ].
  split; [rewrite token_entries_filter; apply length_map | ].
  split; [apply Hdoc | ].
  split; [ | apply Hdoc].
  rewrite Hdoc, token_entries_filter. f_equal.
  induction repositories as [|repo rest IH]; [reflexivity | ].
  cbn [filter]. destruct (has_token repo) eqn:E; cbn [negb]; trivial.
  cbn [filter]. now rewrite E.
Qed.

(** ** The packages input *)

Lemma split_cons (c : ascii) (s : string) :
  split c s = before c s :: match after c s with
                            | Some rest => split c rest
                            | None => []
                            end.
Proof.
  induction s as [|x s IH]; [reflexivity | ].
  cbn [split before after]. destruct (Ascii.eqb x c); [reflexivity | ].
  now rewrite IH.
Qed.

Lemma split_join (c : ascii) (s : string) : join (String c "") (split c s) = s.
Proof.
  induction s as [|x s IH]; [reflexivity | ].
  cbn [split]. destruct (Ascii.eqb_spec x c) as [-> | Hx].
  - cbn [join]. rewrite IH. now rewrite (split_cons c s).
  - rewrite (split_cons c s) in *. cbn [join] in *.
    destruct (match after c s with Some rest => split c rest | None => [] end);
      cbn [append] in *; now rewrite IH.
Qed.

Lemma before_no_separator (c : ascii) (s : string) : after c (before c s) = None.
Proof.
  induction s as [|x s IH]; [reflexivity | ].
  cbn [before]. destruct (Ascii.eqb x c) eqn:E; [reflexivity | ].
  cbn [after]. now rewrite E.
Qed.

Lemma split_pieces (c : ascii) (s : string) :
  Forall (fun piece => after c piece = None) (split c s).
Proof.
  assert (H : forall n s, String.length s <= n ->
                          Forall (fun piece => after c piece = None) (split c s)).
  { clear s. induction n as [|n IH]; intros s Hn.
    - destruct s; [ | simpl in Hn; lia]. now repeat constructor.
    - rewrite split_cons. constructor; [apply before_no_separator | ].
      destruct (after c s) as [rest|] eqn:E; [ | constructor].
      apply IH. clear IH. revert rest E Hn.
      induction s as [|x s IHs]; [discriminate | ]. cbn [after String.length].
      destruct (Ascii.eqb x c); intros rest E Hn.
      + injection E as <-. lia.
      + specialize (IHs rest E). lia. }
  now apply (H (String.length s)).
Qed.

Lemma push_loop {A B : Type} (f : A -> B) (l : list A) :
  forall acc, fold_left (fun acc x => push acc (f x)) l acc = (acc ++ map f l)%list.
Proof.
  induction l as [|x l IH]; intros acc; cbn [fold_left map].
  - now rewrite app_nil_r.
  - rewrite IH. unfold push. now rewrite <- app_assoc.
Qed.

Lemma parse_packages_map (packages : string) :
  parse_packages packages = map package_of_spec (split "," packages).
Proof.
  unfold parse_packages. cbv zeta.
  rewrite (push_loop (fun spec => mkPackage (index (split ":" spec) 0)
                                    (index (split ":" spec) 1))).
  cbn [app]. apply map_ext. intros spec. unfold package_of_spec, index.
  rewrite (split_cons ":" spec). cbn [nth_error]. f_equal.
  destruct (after ":" spec) as [rest|]; [ | reflexivity].
  now rewrite (split_cons ":" rest).
Qed.

(** C3, as stated, fails: with two colons in a spec the version stops at the
    second one. *)
Lemma C3_counterexample :
  parse_packages "A:1:2" = [mkPackage (Some "A") (Some "1")]
  /\ map claimed_package_of_spec (split "," "A:1:2") = [mkPackage (Some "A") (Some "1:2")]
  /\ parse_packages "A:1:2" <> map claimed_package_of_spec (split "," "A:1:2").
Proof. repeat split. discriminate. Qed.

(** C3 (package specs), amended.  The packages input is cut at its commas
    and gives one package per piece, in order; the name is the text of the
    piece before its first colon, and the version is [undefined] when the piece
    has no colon and otherwise the text between its first colon and its second
    one (or its end).  When the text after the first colon has no colon, the
    version is all of it, and "A:1.2.3,B" gives A with 1.2.3 and B without
    version. *)
Theorem C3_package_specs (packages : string) :
  parse_packages packages = map package_of_spec (split "," packages)
  /\ join "," (split "," packages) = packages
  /\ Forall (fun spec => after "," spec = None) (split "," packages)
  /\ (forall spec rest, after ":" spec = Some rest -> after ":" rest = None ->
        package_of_spec spec = claimed_package_of_spec spec)
  /\ (forall spec, after ":" spec = None -> package_of_spec spec = mkPackage (Some spec) None)
  /\ parse_packages "A:1.2.3,B" = [mkPackage (Some "A") (Some "1.2.3"); mkPackage (Some "B") None].
Proof.
  assert (Hwhole : forall c s, after c s = None -> before c s = s).
  { intros c s. induction s as [|x s IH]; [reflexivity | ].
    cbn [after before]. destruct (Ascii.eqb x c); [discriminate | ].
    intros H. now rewrite IH. }
  split; [apply parse_packages_map | ].
  split; [apply split_join | ].
  split; [apply split_pieces | ].
  split; [ | split; [ | reflexivity]].
  - intros spec rest H1 H2. unfold package_of_spec, claimed_package_of_spec.
    rewrite H1. cbn [option_map]. now rewrite (Hwhole ":"%char rest H2).
  - intros spec H. unfold package_of_spec. rewrite H. cbn [option_map].
    now rewrite (Hwhole ":"%char spec H).
Qed.

(** C4, as stated, fails: an empty piece between two commas gives a package
    whose name is the empty string (and so does a piece that starts with a
    colon). *)
Lemma C4_counterexample :
  In (mkPackage (Some "") None) (parse_packages "A,,B")
  /\ In (mkPackage (Some "") (Some "1.0")) (parse_packages "A,:1.0").
Proof. split; cbn; tauto. Qed.

Lemma before_empty (spec : string) :
  truthy (before ":" spec) = starts_with_name spec.
Proof.
  destruct spec as [|c spec]; [reflexivity | ].
  cbn [before starts_with_name]. now destruct (Ascii.eqb c ":").
Qed.

(** C4 (package names), amended.  Every package has a name that is a string,
    never [undefined]; the name of a package is non-empty exactly when its
    spec is not empty and does not start with a colon, so all names are
    non-empty if and only if every piece of the input starts with a name. *)
Theorem C4_package_names (packages : string) :
  Forall (fun p => exists name, Name p = Some name) (parse_packages packages)
  /\ (Forall (fun p => truthy_opt (Name p) = true) (parse_packages packages)
      <-> Forall (fun spec => starts_with_name spec = true) (split "," packages))
  /\ (forall spec, truthy_opt (Name (package_of_spec spec)) = starts_with_name spec).
Proof.
  rewrite parse_packages_map. split; [ | split].
  - apply Forall_map, Forall_forall. intros spec _. now exists (before ":" spec).
  - rewrite Forall_map, !Forall_forall.
    split; intros H spec Hin; specialize (H spec Hin); cbn [Name package_of_spec truthy_opt] in *;
      now rewrite before_empty in *.
  - intros spec. apply before_empty.
Qed.

(** ** The additional repository *)

(** C5, as stated, fails: the test of the script is the prefix http, not
    the presence of a scheme.  An input with another scheme is prefixed. *)
Lemma C5_counterexample :
  truthy (getInput with_ftp_repository "additional-repository") = true
  /\ has_scheme (getInput with_ftp_repository "additional-repository") = true
  /\ (exists t repositories,
        collect_repositories with_ftp_repository = (t, Normal repositories)
        /\ map url repositories = [default_repository; "https://ftp://foo.com/repo"])
  /\ resolve_repository "ftp://foo.com/repo" <> "ftp://foo.com/repo".
Proof.
  split; [reflexivity | ]. split; [reflexivity | ]. split; [ | discriminate].
  do 2 eexists. split; reflexivity.
Qed.

(** The other side of the same test: a bare host whose name starts with http
    has no scheme and is left as it is. *)
Lemma bare_host_with_http_prefix :
  has_scheme "httpbin.org/repo" = false
  /\ resolve_repository "httpbin.org/repo" = "httpbin.org/repo".
Proof. split; reflexivity. Qed.

Lemma prefix_append (a b : string) :
  forall s, String.prefix (a ++ b) s = true -> String.prefix a s = true.
Proof.
  induction a as [|x a IH]; intros s; [now destruct s | ].
  destruct s as [|y s]; cbn [append String.prefix]; [discriminate | ].
  destruct (ascii_dec x y); [apply IH | discriminate].
Qed.

Lemma startsWith_http (s : string) :
  startsWith s "http://" = true \/ startsWith s "https://" = true ->
  startsWith s "http" = true.
Proof.
  unfold startsWith. intros [H | H].
  - now apply (prefix_append "http" "://").
  - now apply (prefix_append "http" "s://").
Qed.

(** C5 (additional repository), amended.  In a run that collected its
    repositories with a non-empty additional-repository input, the second
    repository has the resolved input as its URL: the input with "https://"
    in front when it does not start with "http", and the input itself when it
    starts with "http://" or "https://"; "foo.com/repo" resolves to
    "https://foo.com/repo". *)
Theorem C5_additional_repository (w : World) (t : list Event) (repositories : list Repository) :
  truthy (getInput w "additional-repository") = true ->
  collect_repositories w = (t, Normal repositories) ->
  let input := getInput w "additional-repository" in
  map url repositories = [default_repository; resolve_repository input]
  /\ (startsWith input "http" = false -> resolve_repository input = "https://" ++ input)
  /\ (startsWith input "http://" = true \/ startsWith input "https://" = true ->
      resolve_repository input = input)
  /\ resolve_repository "foo.com/repo" = "https://foo.com/repo".
Proof.
  intros Hinput Hrun input. subst input. split; [ | split; [ | split]].
  - revert Hrun.
    unfold collect_repositories, new_URL_host, writeFileSync, debug, eval, call, emit, ret.
    cbv zeta. rewrite Hinput.
    destruct (URL_host w default_repository) as [host|message];
      unfold bind at 1; cbv beta iota; [ | discriminate].
    destruct (URL_host w (resolve_repository _)) as [host'|message];
      unfold bind at 1; cbv beta iota; [ | discriminate].
    destruct (fs_writeFileSync w _ _) as [[]|message];
      unfold bind; cbv beta iota; [ | discriminate].
    intros H. injection H as _ <-. reflexivity.
  - intros H. unfold resolve_repository. now rewrite H.
  - intros H. unfold resolve_repository. now rewrite (startsWith_http _ H).
  - reflexivity.
Qed.

(** ** Platform, installation directory and download address *)

Lemma args_shape (w : World) :
  args w =
  app (version_argument w) ["architecture=" ++ architecture w; "os=" ++ os_tag w].
Proof.
  unfold args, version_argument, architecture, os_tag, hasVersion, version, push. cbv zeta.
  destruct (truthy (getInput w "version")), (truthy (getInput w "architecture")),
    (truthy (getInput w "os")); reflexivity.
Qed.

Lemma main_starts_with_download (w : World) :
  exists rest completion,
    main w =
    (Einfo ("Downloading OpenTAP: " ++ join "," (args w))
       :: EdownloadTool (download_address w) :: rest, completion).
Proof.
  destruct (tc_downloadTool w (download_address w)) as [file|message] eqn:E.
  - rewrite (main_after_download w file E).
    destruct (try_catch _ _) as [rest completion]. now exists rest, completion.
  - unfold main, main_try, setup. rewrite download_run, E.
    now exists [EsetFailed message], (Normal tt).
Qed.

Lemma main_extracts_to_destDir (w : World) (file : string) :
  tc_downloadTool w (download_address w) = Ok file ->
  In (EextractZip file (destDir w)) (fst (main w)).
Proof.
  intros H. rewrite (main_after_download w file H), extract_run. cbv zeta.
  destruct (failed (tc_extractZip w file (destDir w)));
    [destruct (failed (exec_exec w "pwsh" (expand_archive file (destDir w)))) | ];
    try (cbn; tauto);
    rewrite bind_Normal, try_catch_prepend, prepend_prepend; unfold prepend; cbn [fst];
    apply in_or_app; left; cbn; tauto.
Qed.

(** C6, as stated, fails: the os input changes the os parameter of the
    download but not the installation directory, which follows the host. *)
Lemma C6_counterexample :
  os_tag linux_asked_for_windows = "windows"
  /\ download_address linux_asked_for_windows
     = "https://packages.opentap.io/3.0/DownloadPackage/OpenTAP?architecture=x64&os=windows"
  /\ property INSTALL_DIRS (os_tag linux_asked_for_windows) = Some "C:/Program Files/OpenTAP"
  /\ destDir linux_asked_for_windows = "/opt/tap"
  /\ In (EextractZip "/tmp/opentap.zip" "/opt/tap") (fst (main linux_asked_for_windows))
  /\ Some (destDir linux_asked_for_windows)
     <> property INSTALL_DIRS (os_tag linux_asked_for_windows).
Proof.
  repeat split; try discriminate. vm_compute. tauto.
Qed.

(** C6 (platform and installation directory), amended.  The os parameter of
    the download, the last one, is the os input when it is configured and the
    detected platform tag otherwise.  The installation directory is the entry
    of [INSTALL_DIRS] for the detected tag alone, whatever the os input:
    darwin gives macos and /Users/runner/Library/OpenTAP, win32 gives windows
    and C:/Program Files/OpenTAP, every other host gives linux and /opt/tap;
    that directory is where a run that downloaded its archive extracts it. *)
Theorem C6_platform_and_directory (w : World) :
  (exists front, args w = app front ["os=" ++ os_tag w])
  /\ os_tag w = (if truthy (getInput w "os") then getInput w "os" else platform w)
  /\ property INSTALL_DIRS (platform w) = Some (destDir w)
  /\ ((os_platform w = "darwin" /\ platform w = "macos"
       /\ destDir w = "/Users/runner/Library/OpenTAP")
      \/ (os_platform w = "win32" /\ platform w = "windows"
          /\ destDir w = "C:/Program Files/OpenTAP")
      \/ (os_platform w <> "darwin" /\ os_platform w <> "win32" /\ platform w = "linux"
          /\ destDir w = "/opt/tap"))
  /\ (forall file, tc_downloadTool w (download_address w) = Ok file ->
        In (EextractZip file (destDir w)) (fst (main w))).
Proof.
  split; [ | split; [reflexivity | ]].
  { rewrite args_shape.
    exists (app (version_argument w) ["architecture=" ++ architecture w]).
    now rewrite <- app_assoc. }
  assert (Hcases :
    (os_platform w = "darwin" /\ platform w = "macos")
    \/ (os_platform w = "win32" /\ platform w = "windows")
    \/ (os_platform w <> "darwin" /\ os_platform w <> "win32" /\ platform w = "linux")).
  { unfold platform, resolve_platform.
    destruct (String.eqb_spec (os_platform w) "darwin") as [H1 | H1]; [now left | right].
    destruct (String.eqb_spec (os_platform w) "win32") as [H2 | H2]; [now left | now right]. }
  unfold destDir.
  destruct Hcases as [[H1 H2] | [[H1 H2] | (H1 & H2 & H3)]];
    (split; [ | split; [ | apply main_extracts_to_destDir]]).
  - now rewrite H2.
  - left. rewrite H2. now repeat split.
  - now rewrite H2.
  - right; left. rewrite H2. now repeat split.
  - now rewrite H3.
  - right; right. rewrite H3. now repeat split.
Qed.

(** C7 (download address).  The arguments of the download are the version
    when a version is configured and nothing otherwise, then the architecture
    (the architecture input when it is configured, else x86 on an x32 host
    and x64 on every other), then the os; the address is the endpoint followed
    by these arguments joined with ampersands, and it is the address the run
    downloads from.  In the scenario of the spec the address ends with
    version=9.21.1&architecture=x64&os=linux. *)
Theorem C7_download_address (w : World) :
  args w = app (version_argument w) ["architecture=" ++ architecture w; "os=" ++ os_tag w]
  /\ version_argument w =
     (if truthy (getInput w "version") then ["version=" ++ getInput w "version"] else [])
  /\ architecture w =
     (if truthy (getInput w "architecture") then getInput w "architecture"
      else if String.eqb (os_arch w) "x32" then "x86" else "x64")
  /\ download_address w =
     endpoint ++
     (if truthy (getInput w "version") then "version=" ++ getInput w "version" ++ "&" else "") ++
     "architecture=" ++ architecture w ++ "&" ++ "os=" ++ os_tag w
  /\ (exists rest completion,
        main w =
        (Einfo ("Downloading OpenTAP: " ++ join "," (args w))
           :: EdownloadTool (download_address w) :: rest, completion))
  /\ download_address scenario = endpoint ++ "version=9.21.1&architecture=x64&os=linux".
Proof.
  split; [apply args_shape | ]. split; [reflexivity | ]. split; [reflexivity | ].
  split; [ | split; [apply main_starts_with_download | reflexivity]].
  unfold download_address, endpoint. rewrite args_shape. unfold version_argument.
  destruct (truthy (getInput w "version")); cbn [app join];
    now rewrite ?append_assoc.
Qed.

(** ** The claims on sample runs *)

(** C1 on the run [old_version]: 9.21.0 with a token is rejected. *)
Lemma C1_witness :
  gate_rejects (version old_version) = true
  /\ exists t, main old_version = ((t ++ [EsetFailed version_too_old])%list, Return_).
Proof.
  split; [reflexivity | ].
  assert (H : exists t1 t2 repositories,
            setup old_version = (t1, Normal tt)
            /\ collect_repositories old_version = (t2, Normal repositories)
            /\ existsb has_token repositories = true).
  { do 3 eexists. repeat split. }
  destruct H as (t1 & t2 & repositories & H1 & H2 & H3).
  exists (t1 ++ t2)%list.
  exact (proj2 (proj1 (C1_version_gate old_version t1 t2 repositories
                         H1 eq_refl H2 eq_refl H3)) eq_refl).
Defined.

(** C9 on the run [old_version]: nothing is installed after the rejection. *)
Lemma C9_witness :
  ~ writes (authentication_file old_version) (fst (main old_version))
  /\ ~ executes "tap" image_install (fst (main old_version)).
Proof.
  assert (H : exists t1 t2 repositories,
            setup old_version = (t1, Normal tt)
            /\ collect_repositories old_version = (t2, Normal repositories)
            /\ existsb has_token repositories = true).
  { do 3 eexists. repeat split. }
  destruct H as (t1 & t2 & repositories & H1 & H2 & H3).
  destruct (C9_rejection_stops_the_run old_version t1 t2 repositories
              H1 eq_refl H2 eq_refl H3 eq_refl) as (_ & _ & Hw & He & _).
  now split.
Defined.

(** C8 on the run [no_extractor]: both attempts, then the failure. *)
Lemma C8_witness :
  main no_extractor =
  ([ Einfo "Downloading OpenTAP: architecture=x64,os=linux";
     EdownloadTool (endpoint ++ "architecture=x64&os=linux");
     Einfo "Unzipping OpenTAP: /tmp/opentap.zip";
     EextractZip "/tmp/opentap.zip" "/opt/tap";
     Eexec "pwsh" (expand_archive "/tmp/opentap.zip" "/opt/tap");
     EsetFailed "Unable to extract zip archive." ],
   Return_).
Proof.
  exact (proj1 (proj2 (proj2 (C8_extraction_fallback no_extractor "/tmp/opentap.zip" eq_refl))
                 eq_refl eq_refl)).
Defined.

(** C10 on the run [no_packages]: an old version, tokens and an additional
    repository are configured, and the run installs the tool and lists its
    packages. *)
Lemma C10_witness :
  main no_packages =
  ([ Einfo "Downloading OpenTAP: version=9.20.0,architecture=x64,os=windows";
     EdownloadTool (endpoint ++ "version=9.20.0&architecture=x64&os=windows");
     Einfo "Unzipping OpenTAP: /tmp/opentap.zip";
     EextractZip "/tmp/opentap.zip" "C:/Program Files/OpenTAP";
     EmkdirSync "C:/Program Files/OpenTAP/Settings/";
     Einfo "Configuring OpenTAP";
     EaddPath "C:/Program Files/OpenTAP";
     Eexec "tap" ["package"; "list"; "--installed"] ],
   Normal tt).
Proof.
  exact (proj2 (proj2 (proj2 (proj2 (C10_no_packages no_packages eq_refl)))) _ eq_refl).
Defined.

(** C5 on the run [with_additional_repository]: the example of the spec. *)
Lemma C5_witness :
  exists t repositories,
    collect_repositories with_additional_repository = (t, Normal repositories)
    /\ map url repositories = ["https://packages.opentap.io"; "https://foo.com/repo"].
Proof.
  do 2 eexists. split; [reflexivity | ].
  exact (proj1 (C5_additional_repository with_additional_repository _ _ eq_refl eq_refl)).
Defined.

(** ** More on the reading of a version *)

Lemma span_run (run rest : string) :
  all_digits run = true -> starts_with_digit rest = false ->
  span is_digit (run ++ rest) = (run, rest).
Proof.
  intros Hrun Hrest. induction run as [|c run IH]; cbn [append].
  - destruct rest as [|c rest]; [reflexivity | ]. cbn in Hrest. cbn [span]. now rewrite Hrest.
  - cbn [all_digits] in Hrun. apply andb_true_iff in Hrun as [Hc Hrun].
    cbn [span]. now rewrite Hc, (IH Hrun).
Qed.

(** Trailing text is tolerated: a version with three numbers followed by
    anything that does not go on with a digit reads as these three numbers. *)
Lemma parse_version_with_patch (major minor patch tail : string) :
  all_digits major = true -> truthy major = true ->
  all_digits minor = true -> truthy minor = true ->
  all_digits patch = true -> truthy patch = true ->
  starts_with_digit tail = false ->
  parse_version (major ++ "." ++ minor ++ "." ++ patch ++ tail)
  = Some (major, minor, Some patch).
Proof.
  intros Hma Tma Hmi Tmi Hpa Tpa Htail. unfold parse_version.
  rewrite (span_run major ("." ++ minor ++ "." ++ patch ++ tail) Hma eq_refl).
  destruct major as [|c major]; [discriminate | ]. cbn [append].
  rewrite (span_run minor (String "." (patch ++ tail)) Hmi eq_refl).
  destruct minor as [|d minor]; [discriminate | ]. cbn [append].
  rewrite (span_run patch tail Hpa Htail). cbn [fst].
  now destruct patch.
Qed.

(** A version with two numbers followed by anything that is neither a digit
    nor a dot and a digit reads as these two numbers, without patch. *)
Lemma parse_version_without_patch (major minor tail : string) :
  all_digits major = true -> truthy major = true ->
  all_digits minor = true -> truthy minor = true ->
  starts_with_digit tail = false ->
  match tail with String "." tail' => starts_with_digit tail' = false | _ => True end ->
  parse_version (major ++ "." ++ minor ++ tail) = Some (major, minor, None).
Proof.
  intros Hma Tma Hmi Tmi Htail Hdot. unfold parse_version.
  rewrite (span_run major ("." ++ minor ++ tail) Hma eq_refl).
  destruct major as [|c major]; [discriminate | ]. cbn [append].
  rewrite (span_run minor tail Hmi Htail).
  destruct minor as [|d minor]; [discriminate | ].
  destruct tail as [|x tail]; [reflexivity | ].
  destruct x as [[] [] [] [] [] [] [] []]; try reflexivity.
  destruct tail as [|y tail]; [reflexivity | ].
  cbn in Hdot. cbn [span fst]. now rewrite Hdot.
Qed.

(** What is read stands at the start of the version, in this order. *)
Lemma parse_version_sound (v major minor : string) (patch : option string) :
  parse_version v = Some (major, minor, patch) ->
  exists tail,
    v = major ++ "." ++ minor ++
        match patch with Some p => "." ++ p | None => "" end ++ tail.
Proof.
  unfold parse_version.
  assert (Hv := span_append is_digit v).
  destruct (span is_digit v) as [ma rest]. cbn [fst snd] in Hv. subst v.
  destruct ma as [|c ma]; [discriminate | ].
  destruct rest as [|dot rest]; [discriminate | ].
  destruct dot as [[] [] [] [] [] [] [] []]; try discriminate.
  assert (Hrest := span_append is_digit rest).
  destruct (span is_digit rest) as [mi rest']. cbn [fst snd] in Hrest. subst rest.
  destruct mi as [|d mi]; [discriminate | ].
  destruct rest' as [|dot rest'].
  { intros H; injection H as <- <- <-. now exists "". }
  destruct dot as [[] [] [] [] [] [] [] []];
    try (intros H; injection H as <- <- <-; eexists; reflexivity).
  assert (Htail := span_append is_digit rest').
  destruct (span is_digit rest') as [pa tail]. cbn [fst snd] in Htail. subst rest'.
  destruct pa as [|e pa]; intros H; injection H as <- <- <-.
  - eexists; reflexivity.
  - exists tail. cbn [append]. reflexivity.
Qed.

(** The cases of the spec on version strings. *)
Lemma gate_on_versions :
  gate_rejects "9.20.5" = true
  /\ gate_rejects "9.21" = false
  /\ gate_rejects "9.21.0" = true
  /\ gate_rejects "9.21.0-beta.3" = true
  /\ gate_rejects "9.21.1" = false
  /\ gate_rejects "9.21.x" = false
  /\ gate_rejects "9.22" = false
  /\ gate_rejects "9.22.0" = false
  /\ parse_version "latest" = None.
Proof. repeat split. Qed.

(** A version that does not start with two numbers: the match is [null],
    reading its groups throws, and the run ends in the handler of [main] with
    the message of that error. *)
Lemma version_gate_malformed
  (w : World) (t1 t2 : list Event) (repositories : list Repository) :
  setup w = (t1, Normal tt) ->
  truthy (getInput w "packages") = true ->
  collect_repositories w = (t2, Normal repositories) ->
  hasVersion w = true ->
  existsb has_token repositories = true ->
  parse_version (version w) = None ->
  main w = (((t1 ++ t2) ++ [EsetFailed (null_groups_message w)])%list, Normal tt).
Proof.
  intros Hsetup Hpackages Hrepos Hversion Htoken Hparse.
  rewrite (main_after_repositories w t1 t2 repositories Hsetup Hpackages Hrepos).
  unfold after_repositories. rewrite version_gate_run, Hversion, Htoken, Hparse.
  reflexivity.
Qed.

(** ** The package-manager settings *)

(** One entry per repository, with or without token, in input order. *)
Lemma GetPackageManagerSettings_entries (repositories : list Repository) :
  GetPackageManagerSettings repositories =
  package_manager_open ++
  glue (map (fun repo => RepositorySettingEntry (url repo)) repositories) ++
  "  </Repositories>" ++ nl ++ "</PackageManagerSettings>".
Proof.
  unfold GetPackageManagerSettings. cbv zeta.
  generalize package_manager_open as xml.
  induction repositories as [|repo rest IH]; intros xml; cbn [fold_left map glue].
  - reflexivity.
  - rewrite IH, (append_assoc xml), (append_assoc (RepositorySettingEntry (url repo))).
    reflexivity.
Qed.

(** ** The scenario of the spec, end to end *)

Lemma scenario_image_text :
  scenario_image =
  "{" ++ nl ++
  "  " ++ dq ++ "Packages" ++ dq ++ ": [" ++ nl ++
  "    {" ++ nl ++
  "      " ++ dq ++ "Name" ++ dq ++ ": " ++ dq ++ "Demonstration" ++ dq ++ nl ++
  "    }" ++ nl ++
  "  ]," ++ nl ++
  "  " ++ dq ++ "Repositories" ++ dq ++ ": [" ++ nl ++
  "    " ++ dq ++ "https://packages.opentap.io" ++ dq ++ nl ++
  "  ]" ++ nl ++
  "}".
Proof. reflexivity. Qed.

Lemma scenario_run :
  main scenario =
  ([ Einfo "Downloading OpenTAP: version=9.21.1,architecture=x64,os=linux";
     EdownloadTool (endpoint ++ "version=9.21.1&architecture=x64&os=linux");
     Einfo "Unzipping OpenTAP: /tmp/opentap.zip";
     EextractZip "/tmp/opentap.zip" "/opt/tap";
     EmkdirSync "/opt/tap/Settings/";
     Einfo "Configuring OpenTAP";
     Eexec "chmod" ["+x"; "/opt/tap/tap"];
     EaddPath "/opt/tap";
     EwriteFileSync "/opt/tap/Settings/AuthenticationSettings.xml"
       (authentication_document [TokenInfo "abc" "packages.opentap.io"]);
     Edebug "Wrote authentication settings to /opt/tap/Settings/AuthenticationSettings.xml";
     EwriteFileSync "image.json" scenario_image;
     Edebug ("Image: " ++ scenario_image);
     Eexec "tap" ["image"; "install"; "image.json"; "--non-interactive"; "--merge"];
     Eexec "tap" ["package"; "list"; "--installed"] ],
   Normal tt).
Proof. vm_compute. reflexivity. Qed.

(** ** Counting the entries in the text of the document

    The values are written into the document as they are.  When no token and
    no domain has a [<], the entries can be counted in the text: the opening
    tag occurs once per repository with a non-empty token. *)

Lemma occurrences_skip (a b : string) :
  free_of "<" a = true -> occurrences opening_tag (a ++ b) = occurrences opening_tag b.
Proof.
  induction a as [|x a IH]; [reflexivity | ].
  cbn [free_of]. intros H. apply andb_true_iff in H as [Hx Ha].
  cbn [append occurrences]. rewrite (IH Ha).
  unfold opening_tag at 1. cbn [String.prefix].
  destruct (ascii_dec "<" x) as [<- | _]; [discriminate Hx | reflexivity].
Qed.

Lemma TokenInfo_pieces (value host rest : string) :
  TokenInfo value host ++ rest
  = entry_head ++ value ++ entry_middle ++ host ++ entry_tail ++ rest.
Proof.
  unfold TokenInfo, entry_head, entry_middle, entry_tail.
  rewrite !append_assoc. reflexivity.
Qed.

Lemma occurrences_entry (value host rest : string) :
  free_of "<" value = true -> free_of "<" host = true ->
  occurrences opening_tag (TokenInfo value host ++ rest)
  = S (occurrences opening_tag rest).
Proof.
  intros Hv Hh. rewrite TokenInfo_pieces.
  change (occurrences opening_tag (entry_head ++ ?x))
    with (S (occurrences opening_tag x)).
  rewrite (occurrences_skip value _ Hv).
  change (occurrences opening_tag (entry_middle ++ ?x))
    with (occurrences opening_tag x).
  rewrite (occurrences_skip host _ Hh).
  reflexivity.
Qed.

Lemma occurrences_entries (repositories : list Repository) :
  Forall (fun repo => free_of "<" (template (token repo)) = true
                      /\ free_of "<" (domain repo) = true) repositories ->
  occurrences opening_tag (glue (token_entries repositories) ++ authentication_close)
  = List.length (filter has_token repositories).
Proof.
  intros Hfree. induction Hfree as [|repo rest [Hv Hh] _ IH]; [reflexivity | ].
  cbn [token_entries filter]. unfold has_token at 1.
  destruct (token repo) as [[|c value]|]; cbn [truthy_opt truthy]; trivial.
  cbn [glue List.length]. rewrite append_assoc, occurrences_entry; trivial.
  now rewrite IH.
Qed.

Lemma TokenInfo_occurrences (repositories : list Repository) :
  Forall (fun repo => free_of "<" (template (token repo)) = true
                      /\ free_of "<" (domain repo) = true) repositories ->
  occurrences opening_tag (GetAuthenticationSettings repositories)
  = List.length (filter has_token repositories).
Proof.
  intros Hfree.
  unfold GetAuthenticationSettings. cbv zeta.
  rewrite authentication_loop, append_assoc.
  change (occurrences opening_tag (authentication_open ++ ?x))
    with (occurrences opening_tag x).
  now apply occurrences_entries.
Qed.

(** * Further properties of the script *)

(** ** [GetPackageManagerSettings] *)

(** X1 (package-manager settings).  For every sequence of repositories the
    document is the fixed opening, one repository entry per repository in
    input order, each with the repository's address and enabled, and the
    fixed end.  Tokens and domains play no part: the document is the one of
    the same repositories with their addresses only. *)
Theorem X1_package_manager_entries (repositories : list Repository) :
  GetPackageManagerSettings repositories =
    package_manager_open ++
    glue (map (fun repo => RepositorySettingEntry (url repo)) repositories) ++
    package_manager_close
  /\ List.length (map (fun repo => RepositorySettingEntry (url repo)) repositories)
     = List.length repositories
  /\ GetPackageManagerSettings repositories
     = GetPackageManagerSettings (map address_only repositories).
Proof.
  split; [apply GetPackageManagerSettings_entries | ].
  split; [apply length_map | ].
  rewrite !GetPackageManagerSettings_entries, map_map. reflexivity.
Qed.

Lemma occurrences_skip_tag (tag a b : string) :
  free_of "<" a = true ->
  occurrences (String "<" tag) (a ++ b) = occurrences (String "<" tag) b.
Proof.
  induction a as [|x a IH]; [reflexivity | ].
  cbn [free_of]. intros H. apply andb_true_iff in H as [Hx Ha].
  cbn [append occurrences]. rewrite (IH Ha).
  cbn [String.prefix].
  destruct (ascii_dec "<" x) as [<- | _]; [discriminate Hx | reflexivity].
Qed.

Lemma RepositorySettingEntry_pieces (address rest : string) :
  RepositorySettingEntry address ++ rest
  = repository_head ++ address ++ repository_tail ++ rest.
Proof.
  unfold RepositorySettingEntry, repository_head, repository_tail.
  rewrite !append_assoc. reflexivity.
Qed.

Lemma occurrences_repository_entry (address rest : string) :
  free_of "<" address = true ->
  occurrences entry_tag (RepositorySettingEntry address ++ rest)
  = S (occurrences entry_tag rest).
Proof.
  intros Ha. rewrite RepositorySettingEntry_pieces.
  change (occurrences entry_tag (repository_head ++ ?x))
    with (S (occurrences entry_tag x)).
  unfold entry_tag. rewrite (occurrences_skip_tag _ address _ Ha).
  reflexivity.
Qed.

(** X2 (entries in the text of the package-manager settings).  When no
    address has a [<], the text of the document has the opening tag of a
    repository entry exactly once per repository. *)
Theorem X2_package_manager_tags (repositories : list Repository) :
  Forall (fun repo => free_of "<" (url repo) = true) repositories ->
  occurrences entry_tag (GetPackageManagerSettings repositories)
  = List.length repositories.
Proof.
  intros Hfree. rewrite GetPackageManagerSettings_entries.
  change (occurrences entry_tag (package_manager_open ++ ?x))
    with (occurrences entry_tag x).
  induction Hfree as [|repo rest Hrepo _ IH]; [reflexivity | ].
  cbn [map glue List.length].
  rewrite append_assoc, (occurrences_repository_entry _ _ Hrepo).
  now rewrite IH.
Qed.

(** X2 on the two repositories of a run with an additional repository. *)
Lemma X2_witness :
  occurrences entry_tag
    (GetPackageManagerSettings
       [ mkRepository "https://packages.opentap.io" "packages.opentap.io" (Some "abc");
         mkRepository "https://foo.com/repo" "foo.com" (Some "") ])
  = 2.
Proof.
  apply (X2_package_manager_tags
           [ mkRepository "https://packages.opentap.io" "packages.opentap.io" (Some "abc");
             mkRepository "https://foo.com/repo" "foo.com" (Some "") ]).
  repeat constructor.
Defined.

(** ** [GetAuthenticationSettings], in the text *)

(** X3 (entries in the text of the authentication settings).  When no token
    and no domain has a [<], the text of the document has the opening tag
    [<TokenInfo>] exactly once per repository with a non-empty token. *)
Theorem X3_authentication_tags (repositories : list Repository) :
  Forall (fun repo => free_of "<" (template (token repo)) = true
                      /\ free_of "<" (domain repo) = true) repositories ->
  occurrences opening_tag (GetAuthenticationSettings repositories)
  = List.length (filter has_token repositories).
Proof.
  intros Hfree.
  unfold GetAuthenticationSettings. cbv zeta.
  rewrite authentication_loop, append_assoc.
  change (occurrences opening_tag (authentication_open ++ ?x))
    with (occurrences opening_tag x).
  now apply occurrences_entries.
Qed.

(** X3 on a repository with a token and one without. *)
Lemma X3_witness :
  occurrences opening_tag
    (GetAuthenticationSettings
       [ mkRepository "https://packages.opentap.io" "packages.opentap.io" (Some "abc");
         mkRepository "https://foo.com/repo" "foo.com" (Some "") ])
  = 1.
Proof.
  apply (X3_authentication_tags
           [ mkRepository "https://packages.opentap.io" "packages.opentap.io" (Some "abc");
             mkRepository "https://foo.com/repo" "foo.com" (Some "") ]).
  repeat constructor.
Defined.

(** ** [extractZip] *)

(** X4 ([extractZip] never throws).  Whatever the two mechanisms answer,
    [extractZip] completes with a boolean: neither error leaves the function.
    The boolean is [false] exactly when both mechanisms failed; the trace is the
    tool-cache call alone when it succeeded, and the tool-cache call followed
    by PowerShell when it failed. *)
Theorem X4_extractZip_completes (w : World) (file dest : string) :
  let primary := EextractZip file dest in
  let secondary := Eexec "pwsh" (expand_archive file dest) in
  exists t extracted,
    extractZip w file dest = (t, Normal extracted)
    /\ extracted =
       negb (failed (tc_extractZip w file dest)
             && failed (exec_exec w "pwsh" (expand_archive file dest)))
    /\ t = (if failed (tc_extractZip w file dest) then [primary; secondary] else [primary]).
Proof.
  cbv zeta. rewrite extractZip_run.
  destruct (failed (tc_extractZip w file dest)); do 2 eexists; repeat split.
Qed.

(** ** The additional repository, the packages input and the version pattern *)

(** X5 (resolved repository).  The resolved additional repository always
    starts with http, and resolving it again changes nothing. *)
Theorem X5_resolve_repository_stable (additionalRepository : string) :
  startsWith (resolve_repository additionalRepository) "http" = true
  /\ resolve_repository (resolve_repository additionalRepository)
     = resolve_repository additionalRepository.
Proof.
  assert (H : startsWith (resolve_repository additionalRepository) "http" = true).
  { unfold resolve_repository.
    destruct (startsWith additionalRepository "http") eqn:E; cbn [negb]; [exact E | ].
    reflexivity. }
  split; [exact H | ].
  unfold resolve_repository at 1. now rewrite H.
Qed.

Lemma split_append (c : ascii) (a b : string) :
  split c (a ++ String c b) = (split c a ++ split c b)%list.
Proof.
  induction a as [|x a IH]; cbn [append split].
  - now rewrite Ascii.eqb_refl.
  - destruct (Ascii.eqb x c); rewrite IH; [reflexivity | ].
    now rewrite (split_cons c a).
Qed.

(** X6 (packages, spec by spec).  Parsing two packages inputs joined by a
    comma gives the packages of the first followed by the packages of the
    second; and parsing never gives the empty list. *)
Theorem X6_parse_packages_append (first second : string) :
  parse_packages (first ++ "," ++ second)
  = (parse_packages first ++ parse_packages second)%list
  /\ parse_packages first <> [].
Proof.
  rewrite !parse_packages_map. split.
  - change ("," ++ second) with (String "," second).
    now rewrite split_append, map_app.
  - rewrite (split_cons "," first). discriminate.
Qed.

Lemma parse_version_major_digits (v major minor : string) (patch : option string) :
  parse_version v = Some (major, minor, patch) ->
  all_digits major = true /\ truthy major = true /\ truthy minor = true.
Proof.
  unfold parse_version.
  assert (Hma := span_digits v).
  destruct (span is_digit v) as [ma rest]. cbn [fst] in Hma.
  destruct ma as [|c ma]; [discriminate | ].
  destruct rest as [|dot rest]; [discriminate | ].
  destruct dot as [[] [] [] [] [] [] [] []]; try discriminate.
  destruct (span is_digit rest) as [mi rest'].
  destruct mi as [|d mi]; [discriminate | ].
  destruct rest' as [|dot rest'].
  { intros H; injection H as <- <- <-. now repeat split. }
  destruct dot as [[] [] [] [] [] [] [] []];
    try (intros H; injection H as <- <- <-; now repeat split).
  destruct (fst (span is_digit rest')); intros H; injection H as <- <- <-; now repeat split.
Qed.

Lemma span_starts (run rest : string) :
  all_digits run = true -> truthy run = true ->
  truthy (fst (span is_digit (run ++ rest))) = true.
Proof.
  destruct run as [|c run]; [discriminate | ].
  cbn [all_digits append span]. intros H _. apply andb_true_iff in H as [Hc _].
  rewrite Hc. now destruct (span is_digit (run ++ rest)).
Qed.

(** X7 (what the version pattern matches).  The pattern matches a version
    exactly when the version starts with a non-empty run of digits, a dot and a
    non-empty run of digits; nothing is asked of what follows.  In a match the
    groups major and minor are always there and are non-empty runs of digits
    standing at the start of the version, so [Number(minor)] is never [NaN];
    a patch group, when there, is a non-empty run of digits too. *)
Theorem X7_pattern_matches (v : string) :
  (Regex.exec majorMinorPattern v <> None <->
   exists major minor rest,
     all_digits major = true /\ truthy major = true /\
     all_digits minor = true /\ truthy minor = true /\
     v = major ++ "." ++ minor ++ rest)
  /\ (forall g, Regex.exec majorMinorPattern v = Some g ->
      exists major minor rest,
        Regex.group g "major" = Some major /\ Regex.group g "minor" = Some minor /\
        all_digits major = true /\ truthy major = true /\
        all_digits minor = true /\ truthy minor = true /\
        v = major ++ "." ++ minor ++ rest /\
        Number (Regex.group g "minor") = Some (value minor) /\
        forall patch, Regex.group g "patch" = Some patch ->
                      all_digits patch = true /\ truthy patch = true).
Proof.
  rewrite exec_majorMinorPattern. split; [split | ].
  - destruct (parse_version v) as [[[major minor] patch]|] eqn:E;
      [intros _ | intros H; now elim H].
    destruct (parse_version_digits _ _ _ _ E) as [Hmi _].
    destruct (parse_version_major_digits _ _ _ _ E) as (Hma & Tma & Tmi).
    destruct (parse_version_sound _ _ _ _ E) as [tail Hv].
    exists major, minor, (match patch with Some p => "." ++ p | None => "" end ++ tail).
    now repeat split.
  - intros (major & minor & rest & Hma & Tma & Hmi & Tmi & ->).
    unfold parse_version.
    rewrite (span_run major ("." ++ minor ++ rest) Hma eq_refl).
    destruct major as [|c major]; [discriminate | ]. cbn [append].
    assert (Hrun := span_starts minor rest Hmi Tmi).
    destruct (span is_digit (minor ++ rest)) as [mi rest']. cbn [fst] in Hrun.
    destruct mi as [|d mi]; [discriminate | ].
    destruct rest' as [|dot rest']; [discriminate | ].
    destruct dot as [[] [] [] [] [] [] [] []]; try discriminate.
    destruct (fst (span is_digit rest')); discriminate.
  - intros g Hg.
    destruct (parse_version v) as [[[major minor] patch]|] eqn:E; [ | discriminate].
    injection Hg as <-.
    destruct (parse_version_digits _ _ _ _ E) as [Hmi Hpa].
    destruct (parse_version_major_digits _ _ _ _ E) as (Hma & Tma & Tmi).
    destruct (parse_version_sound _ _ _ _ E) as [tail Hv].
    exists major, minor, (match patch with Some p => "." ++ p | None => "" end ++ tail).
    destruct patch as [p|]; cbn [groups_of Regex.group String.eqb Ascii.eqb Bool.eqb];
      unfold Number, value; rewrite Hmi; repeat split; trivial.
    + injection H as <-. exact (proj1 Hpa).
    + injection H as <-. exact (proj2 Hpa).
    + discriminate H.
    + discriminate H.
Qed.

(** X8 (the gate does not read the major number).  Two versions that differ
    in their major number only get the same answer from the pattern and the
    version test: a match or none alike, and the same verdict. *)
Theorem X8_major_is_ignored (major major' rest : string) :
  all_digits major = true -> truthy major = true ->
  all_digits major' = true -> truthy major' = true ->
  option_map too_old (Regex.exec majorMinorPattern (major ++ "." ++ rest))
  = option_map too_old (Regex.exec majorMinorPattern (major' ++ "." ++ rest)).
Proof.
  intros Hma Tma Hma' Tma'. rewrite !exec_majorMinorPattern. unfold parse_version.
  rewrite (span_run major ("." ++ rest) Hma eq_refl).
  rewrite (span_run major' ("." ++ rest) Hma' eq_refl).
  destruct major as [|c major]; [discriminate | ].
  destruct major' as [|c' major']; [discriminate | ].
  cbn [append].
  destruct (span is_digit rest) as [minor rest'].
  destruct minor as [|d minor]; [reflexivity | ].
  destruct rest' as [|dot rest']; [reflexivity | ].
  destruct dot as [[] [] [] [] [] [] [] []]; try reflexivity.
  destruct (fst (span is_digit rest')); reflexivity.
Qed.

(** X8 on 9.20.0 and 10.20.0: both are too old. *)
Lemma X8_witness :
  option_map too_old (Regex.exec majorMinorPattern "9.20.0") = Some true
  /\ option_map too_old (Regex.exec majorMinorPattern "10.20.0") = Some true.
Proof.
  split; [reflexivity | ].
  exact (eq_trans
           (eq_sym (X8_major_is_ignored "9" "10" "20.0" eq_refl eq_refl eq_refl eq_refl))
           eq_refl).
Defined.

(** ** Tools for the runs *)

Lemma bind_Normal_inv {A B : Type} (m : M A) (k : A -> M B) (t : list Event) (b : B) :
  bind m k = (t, Normal b) ->
  exists t1 a t2, m = (t1, Normal a) /\ k a = (t2, Normal b) /\ t = (t1 ++ t2)%list.
Proof.
  destruct m as [t1 [a| |message]]; simpl; try discriminate.
  destruct (k a) as [t2 c] eqn:E. intros H; injection H as <- ->.
  now exists t1, a, t2.
Qed.

Lemma trace_all_bind_result {A B : Type} (P : Event -> Prop) (m : M A) (k : A -> M B) :
  trace_all P m ->
  (forall t a, m = (t, Normal a) -> trace_all P (k a)) ->
  trace_all P (bind m k).
Proof.
  unfold trace_all. intros Hm Hk. destruct m as [t [a| |message]]; simpl in *; trivial.
  specialize (Hk t a eq_refl). destruct (k a) as [t' c]; simpl in *.
  apply Forall_app. now split.
Qed.

Lemma trace_all_weaken {A : Type} (P Q : Event -> Prop) (m : M A) :
  (forall e, P e -> Q e) -> trace_all P m -> trace_all Q m.
Proof. unfold trace_all. intros H. apply Forall_impl, H. Qed.

(** [trace_events] for a body whose tests have been decided. *)
Ltac trace_decided :=
  cbn [negb]; cbv beta iota zeta;
  repeat first
    [ apply trace_all_ret | apply trace_all_return | apply trace_all_eval
    | apply trace_all_emit | apply trace_all_call
    | apply trace_all_returned_true
    | apply trace_all_bind; [ | intros ?; cbn [negb]; cbv beta iota zeta ]
    | apply trace_all_try_catch; [ | intros ?; cbn [negb]; cbv beta iota zeta ]
    | match goal with
      | |- trace_all _ (if ?b then _ else _) => destruct b
      | |- trace_all _ (match ?r with Ok _ => _ | Err _ => _ end) => destruct r
      end ].

(** [collect_repositories], case by case. *)
Lemma collect_repositories_run (w : World) :
  collect_repositories w =
  match URL_host w default_repository with
  | Err message => ([], Throw message)
  | Ok host =>
      if truthy (getInput w "additional-repository") then
        match URL_host w (resolve_repository (getInput w "additional-repository")) with
        | Err message => ([], Throw message)
        | Ok host' =>
            let repositories := [default_descriptor w host; additional_descriptor w host'] in
            let written :=
              EwriteFileSync (package_manager_file w)
                (GetPackageManagerSettings repositories) in
            match fs_writeFileSync w (package_manager_file w)
                    (GetPackageManagerSettings repositories) with
            | Err message => ([written], Throw message)
            | Ok _ =>
                ([written;
                  Edebug ("Wrote package manager settings to " ++ package_manager_file w)],
                 Normal repositories)
            end
        end
      else ([], Normal [default_descriptor w host])
  end.
Proof.
  unfold collect_repositories, new_URL_host, writeFileSync, debug, eval, call, emit, ret.
  cbv zeta.
  destruct (URL_host w default_repository) as [host|message];
    unfold bind at 1; cbv beta iota; [ | reflexivity].
  destruct (truthy (getInput w "additional-repository")); [ | reflexivity].
  destruct (URL_host w (resolve_repository _)) as [host'|message];
    unfold bind at 1; cbv beta iota; [ | reflexivity].
  unfold default_descriptor, additional_descriptor, push. cbn [app].
  destruct (fs_writeFileSync w _ _) as [[]|message];
    unfold bind; cbv beta iota; reflexivity.
Qed.

Lemma collect_repositories_hasToken
  (w : World) (t : list Event) (repositories : list Repository) :
  collect_repositories w = (t, Normal repositories) ->
  existsb has_token repositories = configured_token w.
Proof.
  rewrite collect_repositories_run. unfold configured_token.
  destruct (URL_host w default_repository) as [host|message]; [ | discriminate].
  destruct (truthy (getInput w "additional-repository")).
  - destruct (URL_host w (resolve_repository _)) as [host'|message]; [ | discriminate].
    cbv zeta. destruct (fs_writeFileSync w _ _) as [[]|message]; [ | discriminate].
    intros H; injection H as _ <-.
    cbn [existsb has_token token default_descriptor additional_descriptor truthy_opt andb].
    now rewrite orb_false_r.
  - intros H; injection H as _ <-.
    cbn [existsb has_token token default_descriptor truthy_opt andb].
    now rewrite orb_false_r.
Qed.

Lemma platform_cases (w : World) :
  (os_platform w = "darwin" /\ platform w = "macos"
   /\ destDir w = "/Users/runner/Library/OpenTAP")
  \/ (os_platform w = "win32" /\ platform w = "windows"
      /\ destDir w = "C:/Program Files/OpenTAP")
  \/ (os_platform w <> "darwin" /\ os_platform w <> "win32" /\ platform w = "linux"
      /\ destDir w = "/opt/tap").
Proof.
  unfold destDir, platform, resolve_platform.
  destruct (String.eqb_spec (os_platform w) "darwin") as [H1 | H1]; [now left | right].
  destruct (String.eqb_spec (os_platform w) "win32") as [H2 | H2]; [now left | now right].
Qed.

Lemma image_file_not_settings (w : World) (name : string) :
  "image.json" <> settingsDir w ++ name.
Proof.
  unfold settingsDir.
  destruct (platform_cases w) as [(_ & _ & ->) | [(_ & _ & ->) | (_ & _ & _ & ->)]];
    discriminate.
Qed.

(** ** Failures before the packages *)

(** X9 (a failed download).  When the download throws, the run ends right
    there: the trace is the announcement, the download and the failure report
    with the message of the error; nothing is extracted, written or run, and
    [main] completes without an error of its own. *)
Theorem X9_download_failure (w : World) (message : string) :
  tc_downloadTool w (download_address w) = Err message ->
  main w =
  ([ Einfo ("Downloading OpenTAP: " ++ join "," (args w));
     EdownloadTool (download_address w);
     EsetFailed message ],
   Normal tt).
Proof.
  intros H. unfold main, main_try, setup. rewrite download_run, H. reflexivity.
Qed.

(** X9 on the host [offline]. *)
Lemma X9_witness :
  main offline =
  ([ Einfo "Downloading OpenTAP: architecture=x64,os=linux";
     EdownloadTool (endpoint ++ "architecture=x64&os=linux");
     EsetFailed "Unexpected HTTP response: 503" ],
   Normal tt).
Proof.
  exact (X9_download_failure offline "Unexpected HTTP response: 503" eq_refl).
Defined.

(** ** The repositories *)

(** X10 (an additional repository that is no URL).  In a run that got through
    its setup with packages to install, when the resolved additional
    repository is refused by the URL parser, the run ends with the message of
    that error right after the setup: Package Manager.xml is not written and
    nothing is installed or listed. *)
Theorem X10_invalid_additional_repository
  (w : World) (t1 : list Event) (host message : string) :
  setup w = (t1, Normal tt) ->
  truthy (getInput w "packages") = true ->
  URL_host w default_repository = Ok host ->
  truthy (getInput w "additional-repository") = true ->
  URL_host w (resolve_repository (getInput w "additional-repository")) = Err message ->
  main w = ((t1 ++ [EsetFailed message])%list, Normal tt)
  /\ (forall file, ~ writes file (fst (main w)))
  /\ (forall arguments, ~ executes "tap" arguments (fst (main w))).
Proof.
  intros Hsetup Hpackages Hdefault Hadditional Hhost.
  assert (Hmain : main w = ((t1 ++ [EsetFailed message])%list, Normal tt)).
  { rewrite (main_after_setup w t1 Hsetup), Hpackages. unfold install_packages.
    rewrite collect_repositories_run, Hdefault, Hadditional, Hhost. reflexivity. }
  split; [exact Hmain | ]. rewrite Hmain. cbn [fst].
  assert (H1 : Forall (fun e => (forall file data, e <> EwriteFileSync file data)
                                /\ forall arguments, e <> Eexec "tap" arguments) t1).
  { assert (H : trace_all (fun e => (forall file data, e <> EwriteFileSync file data)
                                    /\ forall arguments, e <> Eexec "tap" arguments)
                  (setup w)).
    { unfold_body. trace_events; (split; [intros x y | intros x]; discriminate). }
    unfold trace_all in H. now rewrite Hsetup in H. }
  rewrite Forall_forall in H1. split.
  - intros file [data Hin]. apply in_app_or in Hin as [Hin | [Hin | []]].
    + now apply (proj1 (H1 _ Hin) file data).
    + discriminate Hin.
  - intros arguments Hin. apply in_app_or in Hin as [Hin | [Hin | []]].
    + now apply (proj2 (H1 _ Hin) arguments).
    + discriminate Hin.
Qed.

(** X10 on the run [bare_http_host]: a bare host that starts with http is
    left without scheme and is no URL. *)
Lemma X10_witness :
  exists t1,
    setup bare_http_host = (t1, Normal tt)
    /\ main bare_http_host = ((t1 ++ [EsetFailed "Invalid URL"])%list, Normal tt).
Proof.
  eexists. split; [reflexivity | ].
  exact (proj1 (X10_invalid_additional_repository bare_http_host _
                  "packages.opentap.io" "Invalid URL"
                  eq_refl eq_refl eq_refl eq_refl eq_refl)).
Defined.

(** X11 (the repositories of a run).  When the repositories are collected,
    there are two of them with an additional repository and one without; the
    first is the default repository with the token input, the second the
    resolved additional repository with its token; the domain of each is the
    host of its own address; every token is a string; and some repository has
    a non-empty token exactly when a token is configured for a repository in
    use.  Package Manager.xml is written, with both repositories, exactly
    when there is an additional repository. *)
Theorem X11_collected_repositories
  (w : World) (t : list Event) (repositories : list Repository) :
  collect_repositories w = (t, Normal repositories) ->
  Forall (fun repo => URL_host w (url repo) = Ok (domain repo)
                      /\ exists value, token repo = Some value) repositories
  /\ (exists host, hd_error repositories = Some (default_descriptor w host))
  /\ (if truthy (getInput w "additional-repository")
      then (exists host host',
              repositories = [default_descriptor w host; additional_descriptor w host'])
           /\ t = [ EwriteFileSync (package_manager_file w)
                      (GetPackageManagerSettings repositories);
                    Edebug ("Wrote package manager settings to "
                            ++ package_manager_file w) ]
      else (exists host, repositories = [default_descriptor w host]) /\ t = [])
  /\ existsb has_token repositories = configured_token w.
Proof.
  intros Hrun. split; [ | split; [ | split]];
    [ | | | exact (collect_repositories_hasToken w t repositories Hrun)];
    revert Hrun; rewrite collect_repositories_run;
    destruct (URL_host w default_repository) as [host|message] eqn:E0; try discriminate;
    destruct (truthy (getInput w "additional-repository"));
    try (destruct (URL_host w (resolve_repository _)) as [host'|message] eqn:E1;
         try discriminate; cbv zeta;
         destruct (fs_writeFileSync w _ _) as [[]|message]; try discriminate);
    intros H; injection H as <- <-.
  - repeat constructor; cbn; trivial; eexists; reflexivity.
  - repeat constructor; cbn; trivial; eexists; reflexivity.
  - now exists host.
  - now exists host.
  - split; [now exists host, host' | reflexivity].
  - split; [now exists host | reflexivity].
Qed.

(** X11 on the run [with_additional_repository]. *)
Lemma X11_witness :
  exists t repositories,
    collect_repositories with_additional_repository = (t, Normal repositories)
    /\ existsb has_token repositories = configured_token with_additional_repository.
Proof.
  do 2 eexists. split; [reflexivity | ].
  exact (proj2 (proj2 (proj2
           (X11_collected_repositories with_additional_repository _ _ eq_refl)))).
Defined.

(** ** Failure reports *)

Lemma quiet_app (t1 t2 : list Event) : quiet (t1 ++ t2) <-> quiet t1 /\ quiet t2.
Proof.
  unfold quiet. split.
  - intros H. split; intros message Hin; apply (H message), in_or_app; tauto.
  - intros [H1 H2] message Hin. apply in_app_or in Hin as [Hin | Hin].
    + now apply (H1 message).
    + now apply (H2 message).
Qed.

Lemma quiet_one (e : Event) : (forall message, e <> EsetFailed message) -> quiet [e].
Proof. intros H message [Hin | []]. now apply (H message). Qed.

Lemma quiet_nil : quiet [].
Proof. intros message []. Qed.

Lemma fail_stop_ret {A : Type} (a : A) : fail_stop (ret a).
Proof. exact quiet_nil. Qed.

Lemma fail_stop_eval {A : Type} (r : Result A) : fail_stop (eval r).
Proof. destruct r; exact quiet_nil. Qed.

Lemma fail_stop_emit (e : Event) :
  (forall message, e <> EsetFailed message) -> fail_stop (emit e).
Proof. intros H. now apply quiet_one. Qed.

Lemma fail_stop_call {A : Type} (e : Event) (r : Result A) :
  (forall message, e <> EsetFailed message) -> fail_stop (call e r).
Proof. intros H. destruct r; now apply quiet_one. Qed.

Lemma fail_stop_abort {A : Type} (message : string) :
  fail_stop (bind (emit (EsetFailed message)) (fun _ => @return_ A)).
Proof. exists [], message. split; [reflexivity | exact quiet_nil]. Qed.

Lemma fail_stop_returned_true {A : Type} (m : M A) :
  fail_stop m -> fail_stop (returned_true m).
Proof. destruct m as [t [a| |message]]; trivial. Qed.

Lemma fail_stop_bind {A B : Type} (m : M A) (k : A -> M B) :
  fail_stop m -> (forall a, fail_stop (k a)) -> fail_stop (bind m k).
Proof.
  intros Hm Hk. destruct m as [t [a| |message]]; trivial.
  specialize (Hk a). unfold fail_stop in *. cbn [fst snd bind] in *.
  destruct (k a) as [t' [b| |message]]; cbn [fst snd] in *.
  - apply quiet_app. now split.
  - destruct Hk as (pre & message & -> & Hpre).
    exists (t ++ pre)%list, message. split; [now rewrite app_assoc | ].
    apply quiet_app. now split.
  - apply quiet_app. now split.
Qed.

Ltac fail_stop_events :=
  cbv beta zeta;
  repeat first
    [ apply fail_stop_abort | apply fail_stop_ret | apply fail_stop_eval
    | apply fail_stop_emit | apply fail_stop_call
    | apply fail_stop_returned_true
    | apply fail_stop_bind; [ | intros ?; cbv beta zeta ]
    | match goal with
      | |- fail_stop (if ?b then _ else _) => destruct b
      end ].

Lemma fail_stop_main_try (w : World) : fail_stop (main_try w).
Proof.
  unfold_body. fail_stop_events; intros message; discriminate.
Qed.

Lemma main_try_Normal (w : World) (t : list Event) (a : unit) :
  main_try w = (t, Normal a) -> exists pre, t = (pre ++ [Eexec "tap" package_list])%list.
Proof.
  unfold main_try. intros H.
  apply bind_Normal_inv in H as (t1 & a1 & t2 & _ & H & ->).
  apply bind_Normal_inv in H as (t3 & a3 & t4 & _ & H & ->).
  unfold exec, call in H. injection H as <- _.
  exists (t1 ++ t3)%list. now rewrite app_assoc.
Qed.

Lemma last_report (pre pre' post : list Event) (message message' : string) :
  quiet pre ->
  (pre ++ [EsetFailed message])%list = (pre' ++ EsetFailed message' :: post)%list ->
  post = [] /\ quiet pre'.
Proof.
  intros Hpre. destruct post as [|z post] using rev_ind.
  - intros H. apply app_inj_tail in H as [-> _]. now split.
  - clear IHpost. rewrite app_comm_cons, app_assoc. intros H.
    apply app_inj_tail in H as [-> _].
    elim (Hpre message'). apply in_or_app. right. now left.
Qed.

(** X12 (one failure report, and it is the last word).  Whatever happens,
    [main] does not throw: it completes or returns early.  The job is set to
    failed at most once in a run, and nothing happens after it.  A run sets
    no failure exactly when its last event is the [tap package list
    --installed] subprocess, which then succeeded. *)
Theorem X12_failure_is_final (w : World) :
  (forall message, snd (main w) <> Throw message)
  /\ (forall pre message post,
        fst (main w) = (pre ++ EsetFailed message :: post)%list ->
        post = [] /\ quiet pre)
  /\ (quiet (fst (main w)) <->
      (exists pre, fst (main w) = (pre ++ [Eexec "tap" package_list])%list)
      /\ exec_exec w "tap" package_list = Ok tt).
Proof.
  assert (Hstop := fail_stop_main_try w).
  assert (Hlast := main_try_Normal w).
  assert (Hlist : forall t a, main_try w = (t, Normal a) ->
                              exec_exec w "tap" package_list = Ok tt).
  { intros t a H. unfold main_try in H.
    apply bind_Normal_inv in H as (t1 & a1 & t2 & _ & H & _).
    apply bind_Normal_inv in H as (t3 & a3 & t4 & _ & H & _).
    unfold exec, call in H.
    now destruct (exec_exec w "tap" package_list) as [[]|message]. }
  unfold main. destruct (main_try w) as [t [a| |message]];
    unfold fail_stop in Hstop; cbn [fst snd try_catch setFailed emit] in *.
  - (* the body completed *)
    split; [discriminate | split].
    + intros pre message post H. elim (Hstop message). rewrite H.
      apply in_or_app. right. now left.
    + split; [intros _; split; [exact (Hlast t a eq_refl) | exact (Hlist t a eq_refl)]
             | intros _; exact Hstop].
  - (* the body returned early *)
    destruct Hstop as (pre & message & -> & Hpre).
    split; [discriminate | split].
    + intros pre' message' post H. exact (last_report _ _ _ _ _ Hpre H).
    + split.
      * intros H. elim (H message). apply in_or_app. right. now left.
      * intros [[pre' H] _]. apply app_inj_tail in H as [_ H]. discriminate H.
  - (* the body threw *)
    split; [discriminate | split].
    + intros pre' message' post H. exact (last_report _ _ _ _ _ Hstop H).
    + split.
      * intros H. elim (H message). apply in_or_app. right. now left.
      * intros [[pre' H] _]. apply app_inj_tail in H as [_ H]. discriminate H.
Qed.

(** ** The order of the steps *)

Section Guarded.

Variables a b : Event -> Prop.

Lemma guarded_without (t : list Event) : Forall (fun e => ~ b e) t -> guarded a b t.
Proof.
  intros H pre e post -> Hb. rewrite Forall_forall in H.
  elim (H e); [apply in_or_app; right; now left | exact Hb].
Qed.

Lemma guarded_app (t1 t2 : list Event) :
  guarded a b t1 -> guarded a b t2 -> guarded a b (t1 ++ t2).
Proof.
  intros H1 H2 pre e post H Hb.
  apply app_eq_app in H as [l [[-> H] | [-> H]]].
  - destruct l as [|x l].
    + cbn in H. destruct (H2 [] e post (eq_sym H) Hb) as (e' & [] & _).
    + injection H as <- ->.
      destruct (H1 pre e l eq_refl Hb) as (e' & Hin & Ha).
      now exists e'.
  - destruct (H2 l e post H Hb) as (e' & Hin & Ha).
    exists e'. split; [apply in_or_app; now right | exact Ha].
Qed.

Lemma guarded_behind (e0 : Event) (t : list Event) :
  a e0 -> ~ b e0 -> guarded a b (e0 :: t).
Proof.
  intros Ha Hb pre e post H He. destruct pre as [|x pre]; injection H as <- _.
  - now elim Hb.
  - exists e0. split; [now left | exact Ha].
Qed.

Local Abbreviation guarded_in := (guarded_trace a b).

Lemma guarded_ret {A : Type} (x : A) : guarded_in (ret x).
Proof. apply guarded_without. constructor. Qed.

Lemma guarded_return (A : Type) : guarded_in (@return_ A).
Proof. apply guarded_without. constructor. Qed.

Lemma guarded_eval {A : Type} (r : Result A) : guarded_in (eval r).
Proof. apply guarded_without. constructor. Qed.

Lemma guarded_emit (e : Event) : ~ b e -> guarded_in (emit e).
Proof. intros H. apply guarded_without. now repeat constructor. Qed.

Lemma guarded_call {A : Type} (e : Event) (r : Result A) : ~ b e -> guarded_in (call e r).
Proof. intros H. apply guarded_without. now repeat constructor. Qed.

Lemma guarded_returned_true {A : Type} (m : M A) :
  guarded_in m -> guarded_in (returned_true m).
Proof. unfold guarded_in. now destruct m as [t [x| |message]]. Qed.

Lemma guarded_bind {A B : Type} (m : M A) (k : A -> M B) :
  guarded_in m -> (forall x, guarded_in (k x)) -> guarded_in (bind m k).
Proof.
  unfold guarded_in. intros Hm Hk. destruct m as [t [x| |message]]; trivial.
  specialize (Hk x). cbn [bind fst] in *. destruct (k x) as [t' c]. cbn [fst] in *.
  now apply guarded_app.
Qed.

Lemma guarded_try_catch {A : Type} (m : M A) (h : string -> M A) :
  guarded_in m -> (forall message, guarded_in (h message)) -> guarded_in (try_catch m h).
Proof.
  unfold guarded_in. intros Hm Hh. destruct m as [t [x| |message]]; trivial.
  specialize (Hh message). cbn [try_catch fst] in *.
  destruct (h message) as [t' c]. cbn [fst] in *. now apply guarded_app.
Qed.

(** After a call of the kind [a], whatever follows is guarded. *)
Lemma guarded_behind_call {A B : Type} (e : Event) (r : Result A) (k : A -> M B) :
  a e -> ~ b e -> guarded_in (bind (call e r) k).
Proof.
  intros Ha Hb. unfold guarded_in, call.
  destruct r as [x|message]; cbn [bind fst].
  - destruct (k x) as [t c]. cbn [fst app]. now apply guarded_behind.
  - now apply guarded_behind.
Qed.

End Guarded.



(** ** Configuration of the installed tool *)

Lemma platform_windows (w : World) :
  String.eqb (platform w) "windows" = String.eqb (os_platform w) "win32".
Proof.
  destruct (platform_cases w) as [(H & -> & _) | [(H & -> & _) | (_ & H & -> & _)]].
  - now rewrite H.
  - now rewrite H.
  - symmetry. now apply String.eqb_neq.
Qed.

(** X14 (making the tool executable).  On a win32 host no chmod subprocess
    is ever run, whatever the os input asks for.  On every other host the
    installation directory is added to the path only after the chmod of the
    tool in that directory has run (and, since the run went on, succeeded).
    In both cases the only directory ever added to the path is the
    installation directory of the host. *)
Theorem X14_chmod_before_path (w : World) :
  (os_platform w = "win32" -> forall arguments, ~ executes "chmod" arguments (fst (main w)))
  /\ (os_platform w <> "win32" ->
      forall pre dir post,
        fst (main w) = (pre ++ EaddPath dir :: post)%list -> In (chmod_tap w) pre)
  /\ (forall dir, In (EaddPath dir) (fst (main w)) -> dir = destDir w).
Proof.
  split; [ | split].
  - intros Hhost.
    assert (H : trace_all (fun e => forall arguments, e <> Eexec "chmod" arguments) (main w)).
    { unfold_body. rewrite platform_windows, Hhost.
      change (String.eqb "win32" "win32") with true.
      trace_decided; intros ?; discriminate. }
    unfold trace_all in H. rewrite Forall_forall in H.
    intros arguments Hin. now apply (H _ Hin arguments).
  - intros Hhost pre dir post Htrace.
    assert (H : guarded_trace (fun e => e = chmod_tap w) is_addPath (main w)).
    { unfold_body. rewrite platform_windows.
      replace (String.eqb (os_platform w) "win32") with false
        by (symmetry; now apply String.eqb_neq).
      cbn [negb]; cbv beta iota zeta;
      repeat first
        [ apply guarded_behind_call;
          [ reflexivity | solve [intros [? Hb]; discriminate Hb] ]
        | apply guarded_ret | apply guarded_return | apply guarded_eval
        | apply guarded_emit | apply guarded_call
        | apply guarded_returned_true
        | apply guarded_bind; [ | intros ?; cbn [negb]; cbv beta iota zeta ]
        | apply guarded_try_catch; [ | intros ?; cbn [negb]; cbv beta iota zeta ]
        | match goal with
          | |- guarded_trace _ _ (if ?c then _ else _) => destruct c
          end ];
      intros [? Hb]; discriminate Hb. }
    destruct (H pre _ post Htrace (ex_intro _ dir eq_refl)) as (e & Hin & ->).
    exact Hin.
  - assert (H : trace_all (fun e => forall dir, e = EaddPath dir -> dir = destDir w) (main w)).
    { unfold_body. trace_events; intros ? Hx; try discriminate Hx.
      now injection Hx as <-. }
    unfold trace_all in H. rewrite Forall_forall in H.
    intros dir Hin. now apply (H _ Hin dir).
Qed.



(** X14 on a win32 run and on the scenario of the spec. *)
Lemma X14_witness :
  ~ executes "chmod" ["+x"; "C:/Program Files/OpenTAP/tap"] (fst (main no_packages))
  /\ In (Eexec "chmod" ["+x"; "/opt/tap/tap"]) (fst (main scenario)).
Proof.
  split.
  - exact (proj1 (X14_chmod_before_path no_packages) eq_refl _).
  - assert (H : exists pre post,
              fst (main scenario) = (pre ++ EaddPath "/opt/tap" :: post)%list
              /\ incl pre (fst (main scenario))).
    { exists (firstn 7 (fst (main scenario))), (skipn 8 (fst (main scenario))).
      split; [reflexivity | ]. intros e He. vm_compute in He. vm_compute. tauto. }
    destruct H as (pre & post & H & Hincl).
    apply Hincl.
    refine (proj1 (proj2 (X14_chmod_before_path scenario)) _ pre _ post H).
    discriminate.
Defined.

(** ** Early returns and what they leave behind *)

Lemma setup_Return_inv (w : World) (t : list Event) :
  setup w = (t, Return_) ->
  exists file,
    tc_downloadTool w (download_address w) = Ok file
    /\ failed (tc_extractZip w file (destDir w)) = true
    /\ failed (exec_exec w "pwsh" (expand_archive file (destDir w))) = true
    /\ ends_with (EsetFailed extraction_failed) t.
Proof.
  unfold setup. intros H.
  apply bind_Return_inv in H as [H | (t0 & file & t1 & H0 & H & ->)].
  { rewrite download_run in H. now destruct (tc_downloadTool w _). }
  rewrite download_run in H0.
  destruct (tc_downloadTool w (download_address w)) as [file'|message] eqn:E;
    [ | discriminate].
  injection H0 as <- <-.
  apply bind_Return_inv in H as [H | (t2 & a & t3 & _ & H & _)];
    [ | now elim (no_return_configure w _ H)].
  exists file'. split; [reflexivity | ].
  assert (Hend := returns_after_extract w file' _ H).
  rewrite extract_run in H. cbv zeta in H.
  destruct (failed (tc_extractZip w file' (destDir w)));
    [destruct (failed (exec_exec w "pwsh" (expand_archive file' (destDir w)))) | ];
    try discriminate.
  repeat split. destruct Hend as [pre ->].
  exists ([Einfo ("Downloading OpenTAP: " ++ join "," (args w));
           EdownloadTool (download_address w)] ++ pre)%list.
  now rewrite <- app_assoc.
Qed.

Lemma main_Return_inv (w : World) (t : list Event) :
  main w = (t, Return_) ->
  setup w = (t, Return_)
  \/ exists t1 t2 repositories,
       setup w = (t1, Normal tt)
       /\ truthy (getInput w "packages") = true
       /\ collect_repositories w = (t2, Normal repositories)
       /\ hasVersion w = true
       /\ existsb has_token repositories = true
       /\ gate_rejects (version w) = true
       /\ t = ((t1 ++ t2) ++ [EsetFailed version_too_old])%list.
Proof.
  unfold main. intros H.
  apply try_catch_Return_inv in H; [ | apply no_return_setFailed].
  unfold main_try in H.
  apply bind_Return_inv in H as [H | (t1 & [] & t' & Hsetup & H & ->)]; [now left | right].
  apply bind_Return_inv in H as [H | (t2 & a & t3 & _ & H & _)];
    [ | now elim (no_return_exec w _ _ _ H)].
  destruct (truthy (getInput w "packages")) eqn:Hpackages; [ | discriminate].
  unfold install_packages in H.
  apply bind_Return_inv in H as [H | (t2 & repositories & t3 & Hrepos & H & ->)];
    [now elim (no_return_collect_repositories w _ H) | ].
  unfold after_repositories in H.
  apply bind_Return_inv in H as [H | (t4 & a & t5 & _ & H & _)].
  2:{ apply bind_Return_inv in H as [H | (t6 & a' & t7 & _ & H & _)].
      - now elim (no_return_write_authentication w _ _ _ H).
      - now elim (no_return_install_image w _ _ H). }
  rewrite version_gate_run in H. unfold gate_rejects.
  exists t1, t2, repositories.
  destruct (hasVersion w); [ | discriminate].
  destruct (existsb has_token repositories); [ | discriminate]. cbn [andb] in H.
  destruct (parse_version (version w)) as [[[major minor] patch]|]; [ | discriminate].
  destruct (rejects (value minor) (option_map value patch)); [ | discriminate].
  injection H as <-. now rewrite app_assoc.
Qed.

(** X16 (the two early returns).  [main] returns early in two situations
    only.  Either the download went through and both extraction mechanisms
    failed, and the last event is the report of the failed extraction; or the
    run has packages to install, a version, a token configured for a
    repository in use, and a version the gate rejects, and the last event is
    the report that names the minimum version.  In particular a run without
    any configured token is never stopped for its version. *)
Theorem X16_early_returns (w : World) (t : list Event) :
  main w = (t, Return_) ->
  (ends_with (EsetFailed extraction_failed) t
   /\ exists file,
        tc_downloadTool w (download_address w) = Ok file
        /\ failed (tc_extractZip w file (destDir w)) = true
        /\ failed (exec_exec w "pwsh" (expand_archive file (destDir w))) = true)
  \/ (ends_with (EsetFailed version_too_old) t
      /\ truthy (getInput w "packages") = true
      /\ hasVersion w = true
      /\ configured_token w = true
      /\ gate_rejects (version w) = true).
Proof.
  intros H. apply main_Return_inv in H
    as [H | (t1 & t2 & repositories & _ & Hp & Hrepos & Hv & Htoken & Hgate & ->)].
  - left. apply setup_Return_inv in H as (file & H1 & H2 & H3 & H4).
    split; [exact H4 | now exists file].
  - right. rewrite (collect_repositories_hasToken w t2 repositories Hrepos) in Htoken.
    repeat split; trivial. now exists (t1 ++ t2)%list.
Qed.

(** X16 on the run [old_version]. *)
Lemma X16_witness :
  configured_token old_version = true /\ gate_rejects (version old_version) = true.
Proof.
  assert (H : exists t, main old_version = (t, Return_)) by (eexists; reflexivity).
  destruct H as [t H].
  destruct (X16_early_returns old_version t H)
    as [[_ (file & _ & Hfailed & _)] | (_ & _ & _ & Htoken & Hgate)].
  - discriminate Hfailed.
  - now split.
Defined.

(** X17 (a rejection comes after Package Manager.xml).  When the gate stops
    a run that has an additional repository, Package Manager.xml has already
    been written, with the default and the additional repository: the
    rejection does not undo it. *)
Theorem X17_rejection_after_package_manager (w : World) (t : list Event) :
  main w = ((t ++ [EsetFailed version_too_old])%list, Return_) ->
  truthy (getInput w "additional-repository") = true ->
  exists host host',
    In (EwriteFileSync (package_manager_file w)
          (GetPackageManagerSettings
             [default_descriptor w host; additional_descriptor w host']))
       t.
Proof.
  intros H Hadditional.
  apply main_Return_inv in H as [H | (t1 & t2 & repositories & _ & _ & Hrepos & _ & _ & _ & H)].
  - apply setup_Return_inv in H as (file & _ & _ & _ & [pre H]).
    apply app_inj_tail in H as [_ H]. discriminate H.
  - apply app_inj_tail in H as [-> _].
    rewrite collect_repositories_run in Hrepos.
    destruct (URL_host w default_repository) as [host|message]; [ | discriminate].
    rewrite Hadditional in Hrepos.
    destruct (URL_host w (resolve_repository _)) as [host'|message]; [ | discriminate].
    cbv zeta in Hrepos.
    destruct (fs_writeFileSync w _ _) as [[]|message]; [ | discriminate].
    injection Hrepos as <- _.
    exists host, host'. apply in_or_app. right. now left.
Qed.

(** X17 on the run [old_version_two_repositories]. *)
Lemma X17_witness :
  writes (package_manager_file old_version_two_repositories)
    (fst (main old_version_two_repositories)).
Proof.
  assert (H : exists t, main old_version_two_repositories
                        = ((t ++ [EsetFailed version_too_old])%list, Return_)).
  { exists (removelast (fst (main old_version_two_repositories))). reflexivity. }
  destruct H as [t H].
  destruct (X17_rejection_after_package_manager old_version_two_repositories t H eq_refl)
    as (host & host' & Hin).
  eexists. rewrite H. cbn [fst]. apply in_or_app. left. exact Hin.
Defined.

(** ** The authentication file and malformed versions *)

Lemma version_gate_Normal (w : World) (hasToken : bool) (t : list Event) (a : unit) :
  version_gate w hasToken = (t, Normal a) ->
  hasVersion w = true -> hasToken = true ->
  gate_rejects (version w) = false /\ parse_version (version w) <> None.
Proof.
  rewrite version_gate_run. intros H Hv Ht. rewrite Hv, Ht in H.
  cbn [andb] in H. unfold gate_rejects.
  destruct (parse_version (version w)) as [[[major minor] patch]|]; [ | discriminate].
  destruct (rejects (value minor) (option_map value patch)); [discriminate | ].
  split; [reflexivity | discriminate].
Qed.

(** X18 (when AuthenticationSettings.xml is written).  A run writes
    AuthenticationSettings.xml only when it has packages to install and a
    token configured for a repository in use -- the additional-repository
    token alone, without an additional repository, does not count -- and, if a
    version is configured, only when the version matches the pattern and
    passes the gate.  What is written is the authentication document of the
    repositories the run collected. *)
Theorem X18_authentication_file (w : World) (data : string) :
  In (EwriteFileSync (authentication_file w) data) (fst (main w)) ->
  truthy (getInput w "packages") = true
  /\ configured_token w = true
  /\ (hasVersion w = true ->
      gate_rejects (version w) = false /\ parse_version (version w) <> None)
  /\ exists t repositories,
       collect_repositories w = (t, Normal repositories)
       /\ data = GetAuthenticationSettings repositories.
Proof.
  set (Q := fun data =>
    truthy (getInput w "packages") = true
    /\ configured_token w = true
    /\ (hasVersion w = true ->
        gate_rejects (version w) = false /\ parse_version (version w) <> None)
    /\ exists t repositories,
         collect_repositories w = (t, Normal repositories)
         /\ data = GetAuthenticationSettings repositories).
  set (P := fun e => forall data, e = EwriteFileSync (authentication_file w) data -> Q data).
  assert (Hquiet : forall e, before_installing w e -> P e).
  { intros e [He _] d Hd. now elim (He d). }
  assert (H : trace_all P (main w)).
  { unfold main, main_try.
    apply trace_all_try_catch; [ | intros message; apply trace_all_emit; discriminate].
    apply trace_all_bind;
      [exact (trace_all_weaken _ _ _ Hquiet (setup_before_installing w)) | intros _].
    apply trace_all_bind; [ | intros _; apply trace_all_call; discriminate].
    destruct (truthy (getInput w "packages")) eqn:Hpackages; [ | apply trace_all_ret].
    unfold install_packages. apply trace_all_bind_result;
      [exact (trace_all_weaken _ _ _ Hquiet (collect_repositories_before_installing w)) | ].
    intros t repositories Hrepos. unfold after_repositories.
    apply trace_all_bind_result.
    { unfold version_gate, setFailed. trace_events; discriminate. }
    intros tg a Hgate.
    apply trace_all_bind; [ | intros _].
    - unfold write_authentication, writeFileSync, debug.
      destruct (existsb has_token repositories) eqn:Htoken; [ | apply trace_all_ret].
      cbv zeta. apply trace_all_bind; [ | intros _; apply trace_all_emit; discriminate].
      apply trace_all_call. intros d Hd. injection Hd as <-.
      rewrite (collect_repositories_hasToken w t repositories Hrepos) in Htoken.
      split; [reflexivity | split; [exact Htoken | split]].
      + intros Hversion. apply (version_gate_Normal w true tg a); trivial.
      + now exists t, repositories.
    - unfold install_image, writeFileSync, debug, exec. cbv zeta.
      trace_events; intros d Hd; try discriminate Hd.
      injection Hd as Hfile _.
      now elim (image_file_not_settings w "AuthenticationSettings.xml"). }
  unfold trace_all in H. rewrite Forall_forall in H.
  intros Hin. exact (H _ Hin data eq_refl).
Qed.

(** X18 on the scenario of the spec. *)
Lemma X18_witness :
  configured_token scenario = true
  /\ gate_rejects (version scenario) = false.
Proof.
  assert (H : exists data,
            In (EwriteFileSync (authentication_file scenario) data) (fst (main scenario))).
  { eexists. vm_compute. do 8 right. left. reflexivity. }
  destruct H as [data H].
  destruct (X18_authentication_file scenario data H) as (_ & Htoken & Hgate & _).
  split; [exact Htoken | exact (proj1 (Hgate eq_refl))].
Defined.

(** X19 (a version the pattern does not match).  In a run that reached the
    gate with a version and a token, a version that does not start with a run
    of digits, a dot and a run of digits makes the match [null]; reading its
    groups throws, and the run ends in the handler of [main] with the message
    of that error instead of the minimum-version message.  [main] completes
    without returning early, AuthenticationSettings.xml is not written and no
    [tap] subprocess runs. *)
Theorem X19_unmatched_version
  (w : World) (t1 t2 : list Event) (repositories : list Repository) :
  setup w = (t1, Normal tt) ->
  truthy (getInput w "packages") = true ->
  collect_repositories w = (t2, Normal repositories) ->
  hasVersion w = true ->
  existsb has_token repositories = true ->
  Regex.exec majorMinorPattern (version w) = None ->
  main w = (((t1 ++ t2) ++ [EsetFailed (null_groups_message w)])%list, Normal tt)
  /\ ~ writes (authentication_file w) (fst (main w))
  /\ (forall arguments, ~ executes "tap" arguments (fst (main w))).
Proof.
  intros Hsetup Hpackages Hrepos Hversion Htoken Hmatch.
  assert (Hparse : parse_version (version w) = None).
  { rewrite exec_majorMinorPattern in Hmatch.
    now destruct (parse_version (version w)). }
  assert (Hmain := version_gate_malformed w t1 t2 repositories
                     Hsetup Hpackages Hrepos Hversion Htoken Hparse).
  split; [exact Hmain | ]. rewrite Hmain. cbn [fst].
  apply before_installing_quiet.
  assert (H1 : Forall (before_installing w) t1).
  { generalize (setup_before_installing w). unfold trace_all. now rewrite Hsetup. }
  assert (H2 : Forall (before_installing w) t2).
  { generalize (collect_repositories_before_installing w). unfold trace_all.
    now rewrite Hrepos. }
  repeat (apply Forall_app; split); trivial.
  constructor; [ | constructor]. split; intros x; discriminate.
Qed.

(** X19 on the run [latest_version]. *)
Lemma X19_witness :
  exists t,
    main latest_version
    = ((t ++ [EsetFailed "Cannot read properties of null (reading 'groups')"])%list,
       Normal tt).
Proof.
  assert (H : exists t1 t2 repositories,
            setup latest_version = (t1, Normal tt)
            /\ collect_repositories latest_version = (t2, Normal repositories)
            /\ existsb has_token repositories = true).
  { do 3 eexists. repeat split. }
  destruct H as (t1 & t2 & repositories & H1 & H2 & H3).
  exists (t1 ++ t2)%list.
  exact (proj1 (X19_unmatched_version latest_version t1 t2 repositories
                  H1 eq_refl H2 eq_refl H3 eq_refl)).
Defined.

(** ** Everything a run writes and runs *)






